(** * Verdant survey engine: strategy engine, extractor predicates and step loop

    A shallow embedding of the deterministic parts of
    [packages/survey-engine]: [strategy.ts] (seeded answer selection),
    [extractor/question-state.ts] (input-type derivation, validity and
    fingerprint), [executor/actions.ts] (assertion evaluation) and
    [run-survey.ts] (the per-run step loop), and of what the runner
    ([apps/runner]) does to a request on its way to the engine.

    JavaScript strings are sequences of UTF-16 code units, so a string is a
    [list Z] of code units; [js] embeds an ASCII literal.  Array lengths,
    indices and counts are [nat], other JavaScript numbers that the code only
    ever uses as integers are [Z].  The events a run emits to its observer
    and the clock readings of the report are left out. *)

From Stdlib Require Import ZArith Ascii String QArith_base.
From stdpp Require Import base decidable option list numbers gmap.
From Equations Require Import Equations.

Local Open Scope Z_scope.

(** ** JavaScript strings *)

Abbreviation jsstring := (list Z).

Definition js (s : string) : jsstring :=
  (fun a => Z.of_N (N_of_ascii a)) <$> list_ascii_of_string s.
Arguments js s%_string.

(** Truthiness of a string: only the empty string is falsy. *)
Definition truthy (s : jsstring) : bool :=
  match s with
  | [] => false
  | _ :: _ => true
  end.

(** [Array.prototype.join]. *)
Fixpoint join (sep : jsstring) (parts : list jsstring) : jsstring :=
  match parts with
  | [] => []
  | [p] => p
  | p :: rest => p ++ sep ++ join sep rest
  end.

Fixpoint startsWith (s prefix : jsstring) {struct prefix} : bool :=
  match prefix, s with
  | [], _ => true
  | _ :: _, [] => false
  | p :: prefix', c :: s' => bool_decide (c = p) && startsWith s' prefix'
  end.

(** [String.prototype.includes]: the needle occurs at some offset. *)
Fixpoint includes (s needle : jsstring) : bool :=
  startsWith s needle ||
  match s with
  | [] => false
  | _ :: s' => includes s' needle
  end.

Fixpoint digitsOf (d : Decimal.uint) : jsstring :=
  match d with
  | Decimal.Nil => []
  | Decimal.D0 d => 48 :: digitsOf d
  | Decimal.D1 d => 49 :: digitsOf d
  | Decimal.D2 d => 50 :: digitsOf d
  | Decimal.D3 d => 51 :: digitsOf d
  | Decimal.D4 d => 52 :: digitsOf d
  | Decimal.D5 d => 53 :: digitsOf d
  | Decimal.D6 d => 54 :: digitsOf d
  | Decimal.D7 d => 55 :: digitsOf d
  | Decimal.D8 d => 56 :: digitsOf d
  | Decimal.D9 d => 57 :: digitsOf d
  end.

(** A non-negative integer inside a template literal: its decimal digits. *)
Definition numberToString (k : nat) : jsstring := digitsOf (Nat.to_uint k).

(** A number inside a template literal, for the integers the engine prints. *)
Definition integerToString (z : Z) : jsstring :=
  if z <? 0 then js "-" ++ numberToString (Z.to_nat (- z)) else numberToString (Z.to_nat z).

(** ** Types ([types/index.ts]) *)

(** ['first' | 'last' | 'random' | 'ruleset'] *)
Inductive AnswerStrategy := StrategyFirst | StrategyLast | StrategyRandom | StrategyRuleset.

(** The modes of [pickByMode] and of [singleSelect]: ['first' | 'last' | 'random']. *)
Inductive PickMode := PickFirst | PickLast | PickRandom.

(** ['first_n' | 'all' | 'random_n'] *)
Inductive MultiMode := FirstN | All | RandomN.

(** ['single_select' | 'multi_select' | 'text' | 'yes_no' | 'unknown'] *)
Inductive InputType := SingleSelect | MultiSelect | TextInput | YesNo | Unknown.

Record MultiSelectRule := { mode : MultiMode; n : option Z }.

(** [byKeyword] is a [Record<string, string>]; the code only walks its
    [Object.entries], so it is kept as that list of entries, in order. *)
Record TextRule := {
  default_ : option jsstring;
  byKeyword : option (list (jsstring * jsstring))
}.

Record RulesetConfig := {
  singleSelect : option PickMode;
  multiSelect : option MultiSelectRule;
  text : option TextRule
}.

Record SurveyOption := { label : jsstring; selected : bool }.

Record QuestionState := {
  questionText : jsstring;
  supportText : list jsstring;
  inputType : InputType;
  options : list SurveyOption;
  filledValue : jsstring;
  navigationButtons : list jsstring;
  progress : option jsstring;
  visibleInputCount : nat;
  url : jsstring
}.

#[global] Instance InputType_eq_dec : EqDecision InputType.
Proof. solve_decision. Defined.
#[global] Instance AnswerStrategy_eq_dec : EqDecision AnswerStrategy.
Proof. solve_decision. Defined.
#[global] Instance MultiMode_eq_dec : EqDecision MultiMode.
Proof. solve_decision. Defined.

(** ** Strategy engine ([strategy.ts]) *)

(** One round of the loop of [seededIndex]:
    [hash = (hash * 31 + seed.charCodeAt(index)) >>> 0].  [hash] is below
    2^32 and a code unit below 2^16, so the sum is an exact integer below
    2^53 and [>>> 0] reduces it modulo 2^32. *)
Definition hashStep (hash c : Z) : Z := (hash * 31 + c) `mod` 2 ^ 32.

Definition seedHash (seed : jsstring) : Z := foldl hashStep 0 seed.

Definition seededIndex (seed : jsstring) (len : nat) : nat :=
  if decide (len = 0%nat) then 0%nat
  else Z.to_nat (seedHash seed `mod` Z.of_nat len).

Definition pickByMode (labels : list jsstring) (m : PickMode) (seed : jsstring) : jsstring :=
  if decide (length labels = 0%nat) then []
  else match m with
       | PickFirst => default [] (labels !! 0%nat)
       | PickLast => default [] (labels !! (length labels - 1)%nat)
       | PickRandom => default [] (labels !! seededIndex seed (length labels))
       end.

(** [`${runId}:${state.questionText}`] *)
Definition selectionSeed (runId : jsstring) (state : QuestionState) : jsstring :=
  runId ++ js ":" ++ questionText state.

(** [`${runId}:${state.questionText}:${result.length}`] *)
Definition randomSeed (runId : jsstring) (state : QuestionState) (k : nat) : jsstring :=
  runId ++ js ":" ++ questionText state ++ js ":" ++ numberToString k.

(** [Math.max(1, ruleset?.multiSelect?.n ?? 2)].  The runner's request
    schema admits only integers for [n], hence [Z]. *)
Definition effectiveN (ruleset : option RulesetConfig) : Z :=
  Z.max 1 (default 2 ((ruleset ≫= multiSelect) ≫= n)).

Lemma seededIndex_lt seed len : (0 < len)%nat → (seededIndex seed len < len)%nat.
Proof.
  intros Hlen. unfold seededIndex.
  destruct (decide (len = 0%nat)) as [->|_]; [lia|].
  pose proof (Z.mod_pos_bound (seedHash seed) (Z.of_nat len)). lia.
Qed.

(** [ruleset?.multiSelect?.mode ?? 'first_n'] *)
Definition multiSelectMode (ruleset : option RulesetConfig) : MultiMode :=
  default FirstN (mode <$> (ruleset ≫= multiSelect)).

(** The [while] loop of the [random_n] branch: [chosen] is the shrinking
    pool, [result] the labels picked so far. *)
Equations? randomLoop (runId : jsstring) (state : QuestionState) (count : Z)
    (chosen result : list jsstring) : list jsstring by wf (length chosen) lt :=
  randomLoop runId state count chosen result
    with decide ((0 < length chosen)%nat ∧ Z.of_nat (length result) < count) => {
    | right _ := result
    | left Hgo :=
        let idx := seededIndex (randomSeed runId state (length result)) (length chosen) in
        randomLoop runId state count (delete idx chosen)
          (match chosen !! idx with
           | Some l => if truthy l then result ++ [l] else result
           | None => result
           end) }.
Proof.
  assert (idx < length chosen)%nat as Hidx by (apply seededIndex_lt; assumption).
  rewrite length_delete; [lia|]. by apply lookup_lt_is_Some.
Qed.

Definition deterministicSelection (state : QuestionState) (strategy : AnswerStrategy)
    (ruleset : option RulesetConfig) (runId : jsstring) : list jsstring :=
  let labels := label <$> options state in
  if decide (length labels = 0%nat) then []
  else if decide (strategy ≠ StrategyRuleset) then
    let m := match strategy with
             | StrategyFirst => PickFirst
             | StrategyLast => PickLast
             | _ => PickRandom
             end in
    if decide (inputType state = MultiSelect) then
      let picked := pickByMode labels m (selectionSeed runId state) in
      if truthy picked then [picked] else []
    else filter (fun l => truthy l = true) [pickByMode labels m (selectionSeed runId state)]
  else if decide (inputType state = MultiSelect) then
    let md := multiSelectMode ruleset in
    let count := effectiveN ruleset in
    if decide (md = All) then labels
    else if decide (md = RandomN) then randomLoop runId state count labels []
    else take (Z.to_nat count) labels
  else
    let singleMode := default PickFirst (ruleset ≫= singleSelect) in
    filter (fun l => truthy l = true) [pickByMode labels singleMode (selectionSeed runId state)].

(** ** Regular-expression helpers

    The regular expressions of the engine are alternations of ASCII words,
    some between word boundaries, some with the [i] flag. *)

(** The [i] flag on an ASCII pattern: only the 26 ASCII capitals fold. *)
Definition foldAscii (s : jsstring) : jsstring :=
  (λ c, if (65 <=? c) && (c <=? 90) then c + 32 else c) <$> s.

(** [\w] *)
Definition isWordChar (c : Z) : bool :=
  (48 <=? c) && (c <=? 57) || (65 <=? c) && (c <=? 90) || (c =? 95)
  || (97 <=? c) && (c <=? 122).

(** [w] at the head of [s] with a word boundary after it ([w] ends in a
    word character). *)
Definition wordAtStart (s w : jsstring) : bool :=
  startsWith s w &&
  match drop (length w) s with
  | [] => true
  | c :: _ => negb (isWordChar c)
  end.

(** [/\bw\b/.test(s)] for a word [w] that starts and ends with a word
    character; [prev] is the code unit before [s]. *)
Fixpoint wordFrom (prev : option Z) (s w : jsstring) : bool :=
  (match prev with
   | None => true
   | Some p => negb (isWordChar p)
   end && wordAtStart s w)
  || match s with
     | [] => false
     | c :: s' => wordFrom (Some c) s' w
     end.

Definition matchesWord (s w : jsstring) : bool := wordFrom None s w.

(** [\s], which is also what [trim] removes. *)
Definition isSpace (c : Z) : bool :=
  bool_decide (c ∈ [9; 10; 11; 12; 13; 32; 160; 5760; 8232; 8233; 8239; 8287; 12288; 65279])
  || (8192 <=? c) && (c <=? 8202).

(** The maximal runs of non-space code units of [s]; [word] is the run
    being read, reversed. *)
Fixpoint runsFrom (word : jsstring) (s : jsstring) : list jsstring :=
  match s with
  | [] => match word with [] => [] | _ => [rev word] end
  | c :: s' =>
      if isSpace c
      then match word with [] => runsFrom [] s' | _ => rev word :: runsFrom [] s' end
      else runsFrom (c :: word) s'
  end.

(** [clean]: [(value ?? '').replace(/\s+/g, ' ').trim()]. *)
Definition clean (value : option jsstring) : jsstring :=
  join (js " ") (runsFrom [] (default [] value)).

(** [String(step).padStart(2, '0')] *)
Definition padStart2 (s : jsstring) : jsstring :=
  match s with
  | [] => js "00"
  | [c] => [48; c]
  | _ => s
  end.

(** ** Decisions ([llm/types.ts]) and step records *)

Inductive Action :=
  SelectSingleAction | SelectMultiAction | TypeText | ClickNext | ClickSubmit | CannotProceed.

#[global] Instance Action_eq_dec : EqDecision Action.
Proof. solve_decision. Defined.

Record Selection := { selectionLabel : jsstring }.

Record Decision := {
  action : Action;
  selections : list Selection;
  decisionText : jsstring;
  confidence : Q;
  reason : jsstring;
  needs_screenshot : bool;
  assertions : list jsstring
}.

Record StepArtifact := { artifactType : jsstring; path : jsstring }.

Record StepResult := {
  step : nat;
  state : QuestionState;
  decision : Decision;
  actionSucceeded : bool;
  progressed : bool;
  assertionsPassed : list jsstring;
  assertionsFailed : list jsstring;
  artifacts : list StepArtifact
}.

Inductive RunStatus := Success | Blocked | Error | Running.

#[global] Instance RunStatus_eq_dec : EqDecision RunStatus.
Proof. solve_decision. Defined.

(** The report without its clock readings and video reference. *)
Record RunReport := {
  reportRunId : jsstring;
  reportSurveyUrl : jsstring;
  status : RunStatus;
  steps : list StepResult;
  message : jsstring;
  reportArtifactsDir : jsstring
}.

Record RunSurveyInput := {
  runId : jsstring;
  surveyUrl : jsstring;
  strategy : AnswerStrategy;
  captureScreenshots : bool;
  completeSurvey : bool;
  ruleset : option RulesetConfig;
  artifactsDir : jsstring;
  maxSteps : option Z
}.

(** ** Extractor predicates ([extractor/question-state.ts]) *)

Definition isValidSurveySurface (s : QuestionState) : bool :=
  if decide (0 < visibleInputCount s)%nat then true
  else bool_decide (0 < length (navigationButtons s))%nat.

Definition stateFingerprint (s : QuestionState) : jsstring :=
  questionText s ++ js "|" ++ default [] (progress s) ++ js "|"
  ++ join (js ",")
       ((λ o, label o ++ js ":" ++ (if selected o then js "1" else js "0")) <$> options s)
  ++ js "|" ++ filledValue s.

(** ** What the extractor reads from a page or frame

    A [Surface] is the outcome of the Playwright queries of
    [extractFromContext] on one page or frame: for each element of a role,
    whether it is visible, the label [elementLabel] derives for it and the
    result of the selection probe.  An element whose reads throw is skipped
    by the code exactly like an invisible one and is represented as such. *)

Record Control := { visible : bool; name : jsstring; marked : bool }.

Record Textbox := { shown : bool; value : jsstring }.

Record Surface := {
  headings : list Control;
  legends : list (bool * jsstring);
  buttons : list Control;
  radios : list Control;
  checkboxes : list Control;
  textboxes : list Textbox;
  progressbars : list Control;
  bodyProgressText : jsstring;
  location : jsstring
}.

(** [String.prototype.trim] *)
Fixpoint trimStart (s : jsstring) : jsstring :=
  match s with
  | [] => []
  | c :: s' => if isSpace c then trimStart s' else s
  end.

Definition trim (s : jsstring) : jsstring := rev (trimStart (rev (trimStart s))).

(** [NAVIGATION_LABEL.test(label)] *)
Definition navigationWords : list jsstring :=
  [js "next"; js "continue"; js "ok"; js "submit"; js "done"; js "finish";
   js "start"; js "send"; js "complete"; js "previous"; js "back"].

Definition isNavigationLabel (l : jsstring) : bool :=
  existsb (matchesWord (foldAscii l)) navigationWords.

(** A [Map<string, SurveyOption>] as its entries in insertion order. *)
Abbreviation OptionsMap := (list (jsstring * SurveyOption)).

Definition mapHas (m : OptionsMap) (key : jsstring) : bool := bool_decide (key ∈ m.*1).

(** [Map.prototype.set]: an existing key keeps its place. *)
Fixpoint mapSet (m : OptionsMap) (key : jsstring) (v : SurveyOption) : OptionsMap :=
  match m with
  | [] => [(key, v)]
  | (k, x) :: rest => if decide (k = key) then (k, v) :: rest else (k, x) :: mapSet rest key v
  end.

Definition visibleLabelsForRole (items : list Control) : list jsstring :=
  name <$> filter (λ item, visible item = true ∧ truthy (name item) = true) items.

Definition readOptionsFromRole (items : list Control) (existing : OptionsMap) : OptionsMap :=
  foldl (λ m item,
           if visible item && truthy (name item)
           then mapSet m (name item) {| label := name item; selected := marked item |}
           else m)
        existing items.

Definition readOptionButtons (items : list Control) (existing : OptionsMap) : OptionsMap :=
  foldl (λ m item,
           if visible item && truthy (name item) && negb (isNavigationLabel (name item))
           then if mapHas m (name item) then m
                else mapSet m (name item) {| label := name item; selected := marked item |}
           else m)
        existing items.

Fixpoint readFilledText (boxes : list Textbox) : jsstring :=
  match boxes with
  | [] => []
  | box :: rest =>
      if shown box && truthy (clean (Some (value box))) then clean (Some (value box))
      else readFilledText rest
  end.

Fixpoint firstProgressbar (bars : list Control) : option jsstring :=
  match bars with
  | [] => None
  | bar :: rest =>
      if visible bar && truthy (name bar) then Some (name bar) else firstProgressbar rest
  end.

Definition detectProgress (surface : Surface) : option jsstring :=
  match firstProgressbar (progressbars surface) with
  | Some l => Some l
  | None =>
      let scraped := clean (Some (bodyProgressText surface)) in
      if truthy scraped then Some scraped else None
  end.

(** [[...new Set(labels)]]: first occurrences, in order. *)
Fixpoint dedupe (seen labels : list jsstring) : list jsstring :=
  match labels with
  | [] => []
  | l :: rest =>
      if bool_decide (l ∈ seen) then dedupe seen rest else l :: dedupe (l :: seen) rest
  end.

Section Extractor.

(** [String.prototype.toLowerCase], fixed by the Unicode tables of the
    JavaScript engine. *)
Variable toLowerCase : jsstring → jsstring.

(** The derivation of [inputType] in [extractFromContext]. *)
Definition deriveInputType (radioCount checkboxCount visibleTextInputCount : nat)
    (optionKeys : list jsstring) : InputType :=
  let inputType0 := Unknown in
  let inputType1 :=
    if bool_decide (0 < radioCount)%nat && bool_decide (checkboxCount = 0%nat)
    then SingleSelect else inputType0 in
  let inputType2 := if bool_decide (0 < checkboxCount)%nat then MultiSelect else inputType1 in
  let inputType3 :=
    if bool_decide (0 < visibleTextInputCount)%nat then TextInput else inputType2 in
  let optionLabels := toLowerCase <$> optionKeys in
  if bool_decide (length optionLabels = 2%nat)
     && bool_decide (js "yes" ∈ optionLabels) && bool_decide (js "no" ∈ optionLabels)
  then YesNo else inputType3.

Definition extractFromContext (target : Surface) : QuestionState :=
  let headings0 := visibleLabelsForRole (headings target) in
  let headings1 :=
    if bool_decide (length headings0 = 0%nat)
    then (λ legend, trim legend.2) <$> filter (λ legend, legend.1 = true) (legends target)
    else headings0 in
  let rawButtons := visibleLabelsForRole (buttons target) in
  let navigationButtons := dedupe [] (filter (λ l, isNavigationLabel l = true) rawButtons) in
  let optionsMap :=
    readOptionButtons (buttons target)
      (readOptionsFromRole (checkboxes target)
         (readOptionsFromRole (radios target) [])) in
  let visibleTextInputCount := length (filter (λ box, shown box = true) (textboxes target)) in
  let radioCount := length (radios target) in
  let checkboxCount := length (checkboxes target) in
  let inputType :=
    deriveInputType radioCount checkboxCount visibleTextInputCount optionsMap.*1 in
  let questionText :=
    default (if bool_decide (0 < length optionsMap)%nat
             then js "Please answer this question" else js "Survey step")
            (headings1 !! 0%nat) in
  {| questionText := questionText;
     supportText := take 2 (drop 1 headings1);
     inputType := inputType;
     options := optionsMap.*2;
     filledValue := readFilledText (textboxes target);
     navigationButtons := navigationButtons;
     progress := detectProgress target;
     visibleInputCount :=
       (visibleTextInputCount + radioCount + checkboxCount + length optionsMap)%nat;
     url := location target |}.

(** [extractQuestionState] on a page: [frames] are the frames other than
    the main frame, [None] for a frame whose extraction throws. *)
Definition extractQuestionState (context : Surface) (frames : list (option Surface))
    : QuestionState :=
  let state := extractFromContext context in
  if isValidSurveySurface state then state
  else default state
         (head (filter (λ s, isValidSurveySurface s = true)
                  (extractFromContext <$> omap id frames))).

End Extractor.

(** ** Calls that may throw *)

(** The outcome of an awaited call: a value, or an exception whose message
    is kept when it is an [Error]. *)
Inductive awaited (A : Type) :=
  | Returned (a : A)
  | Thrown (error : option jsstring).
Arguments Returned {A} a.
Arguments Thrown {A} error.

(** ** Executor ([executor/actions.ts]) *)

(** What the browser does during one [executeDecision]: the outcome of each
    attempt of [perform] (followed, for [type_text], by [verifyTextFilled]),
    the states [waitForProgress] extracts at its 250ms ticks before the
    timeout, and the state it extracts once the timeout has passed. *)
Record Browser := {
  attempts : nat → awaited bool;
  polls : list QuestionState;
  settled : QuestionState
}.

Module Execution.
Record t := {
  actionSucceeded : bool;
  progressed : bool;
  afterState : QuestionState;
  assertionsPassed : list jsstring;
  assertionsFailed : list jsstring
}.
End Execution.

(** [while (attempt < 2 && !actionSucceeded)]; [fuel] is [2 - attempt]. *)
Fixpoint performLoop (outcomes : nat → awaited bool) (fuel attempt : nat) : bool :=
  match fuel with
  | O => false
  | S fuel' =>
      match outcomes attempt with
      | Returned true => true
      | _ => performLoop outcomes fuel' (S attempt)
      end
  end.

Fixpoint waitForProgress (before : QuestionState) (ticks : list QuestionState)
    (final : QuestionState) : bool * QuestionState :=
  match ticks with
  | [] => (false, final)
  | st :: rest =>
      if bool_decide (stateFingerprint st ≠ stateFingerprint before) && isValidSurveySurface st
      then (true, st)
      else waitForProgress before rest final
  end.

Section Engine.

Variable toLowerCase : jsstring → jsstring.

(** [new URL(u).hostname]; [None] when the constructor throws. *)
Variable hostnameOf : jsstring → option jsstring.

(** *** [strategy.ts], text answers *)

Definition chooseTextByRuleset (state : QuestionState) (ruleset : option RulesetConfig)
    (fallback : option jsstring) : jsstring :=
  let defaultValue :=
    default (default (js "AUTO_TEST_RESPONSE") fallback) ((ruleset ≫= text) ≫= default_) in
  let entries := default [] ((ruleset ≫= text) ≫= byKeyword) in
  let haystack :=
    toLowerCase (questionText state ++ js " " ++ join (js " ") (supportText state)) in
  let entry := List.find (λ e, includes haystack (toLowerCase e.1)) entries in
  default defaultValue (snd <$> entry).

(** *** [executor/actions.ts] *)

Definition checkAssertion (assertion : jsstring) (state : QuestionState) : bool :=
  let haystack :=
    toLowerCase
      (questionText state ++ js " " ++ join (js " ") (supportText state) ++ js " "
       ++ join (js " ") (label <$> filter (λ o, selected o = true) (options state))
       ++ js " " ++ filledValue state) in
  includes haystack (toLowerCase assertion).

Definition executeDecision (beforeState : QuestionState) (decision : Decision)
    (browser : Browser) : Execution.t :=
  let actionSucceeded := performLoop (attempts browser) 2 0 in
  let '(progressed, afterState) :=
    waitForProgress beforeState (polls browser) (settled browser) in
  let questionChanged := bool_decide (questionText beforeState ≠ questionText afterState) in
  if negb questionChanged then
    let passed := filter (λ a, checkAssertion a afterState = true) (assertions decision) in
    let failed := filter (λ a, checkAssertion a afterState = false) (assertions decision) in
    let unreflected :=
      if bool_decide (action decision = SelectSingleAction
                      ∨ action decision = SelectMultiAction)
      then
        let selectedLabels :=
          (λ o, toLowerCase (label o))
            <$> filter (λ o, selected o = true) (options afterState) in
        (λ sel, js "Selection not reflected: " ++ selectionLabel sel)
          <$> filter (λ sel, toLowerCase (selectionLabel sel) ∉ selectedLabels)
                (selections decision)
      else [] in
    let untyped :=
      if bool_decide (action decision = TypeText) && truthy (decisionText decision)
         && negb (includes (filledValue afterState) (decisionText decision))
      then [js "Typed text is not visible in the input."] else [] in
    {| Execution.actionSucceeded := actionSucceeded;
       Execution.progressed := progressed;
       Execution.afterState := afterState;
       Execution.assertionsPassed := passed;
       Execution.assertionsFailed := failed ++ unreflected ++ untyped |}
  else
    {| Execution.actionSucceeded := actionSucceeded;
       Execution.progressed := progressed;
       Execution.afterState := afterState;
       Execution.assertionsPassed := [js "Successfully navigated to next step."];
       Execution.assertionsFailed := [] |}.

(** *** [run-survey.ts] *)

(** What one iteration of the step loop meets: the state extracted at its
    start, the answer of the decision source, whether a screenshot with a
    given label can be taken, and the browser's behaviour while the
    decision is executed ([Thrown] when [executeDecision] throws). *)
Record StepWorld := {
  extracted : awaited QuestionState;
  llmDecision : awaited Decision;
  screenshot : jsstring → awaited unit;
  executed : awaited Browser
}.

(** What a run meets: the navigation, the extractions of the opening phase
    (the first one and one per retry), the screenshot of an unreadable
    surface, and the world of each step, numbered from 1. *)
Record World := {
  navigated : awaited unit;
  openingExtracts : nat → awaited QuestionState;
  invalidSurfaceScreenshot : awaited unit;
  atStep : nat → StepWorld
}.

(** [path.join(artifactsDir, 'screenshots', filename)] for a normalised
    directory name. *)
Definition screenshotArtifact (dir label : jsstring) (k : nat) : StepArtifact :=
  {| artifactType := js "screenshot";
     path := dir ++ js "/screenshots/" ++ js "step-" ++ padStart2 (numberToString k)
             ++ js "-" ++ label ++ js ".png" |}.

Definition fallbackDecision (runId : jsstring) (state : QuestionState)
    (strategy : AnswerStrategy) (ruleset : option RulesetConfig) : Decision :=
  let single :=
    (λ l, {| selectionLabel := l |})
      <$> take 1 (deterministicSelection state strategy ruleset runId) in
  let multi :=
    (λ l, {| selectionLabel := l |})
      <$> deterministicSelection state strategy ruleset runId in
  if bool_decide (inputType state = TextInput) then
    {| action := TypeText; selections := [];
       decisionText := chooseTextByRuleset state ruleset None;
       confidence := 35 # 100;
       reason := js "Fallback strategy: typing deterministic text.";
       needs_screenshot := false; assertions := [] |}
  else if bool_decide (inputType state = SingleSelect ∨ inputType state = YesNo)
          && bool_decide (0 < length single)%nat then
    {| action := SelectSingleAction; selections := single; decisionText := [];
       confidence := 35 # 100;
       reason := js "Fallback strategy: choosing deterministic single option.";
       needs_screenshot := false; assertions := [] |}
  else if bool_decide (inputType state = MultiSelect)
          && bool_decide (0 < length multi)%nat then
    {| action := SelectMultiAction; selections := multi; decisionText := [];
       confidence := 35 # 100;
       reason := js "Fallback strategy: choosing deterministic multi options.";
       needs_screenshot := false; assertions := [] |}
  else if bool_decide (0 < length (navigationButtons state))%nat then
    let hasSubmit :=
      existsb (λ button,
                 existsb (includes (foldAscii button))
                   [js "submit"; js "finish"; js "done"; js "complete"])
              (navigationButtons state) in
    {| action := if hasSubmit then ClickSubmit else ClickNext;
       selections := []; decisionText := [];
       confidence := 3 # 10;
       reason := js "Fallback strategy: continue navigation.";
       needs_screenshot := false; assertions := [] |}
  else
    {| action := CannotProceed; selections := []; decisionText := [];
       confidence := 2 # 10;
       reason := js "Fallback strategy: no actionable UI.";
       needs_screenshot := true; assertions := [] |}.

Definition isCompletionLikely (state : QuestionState) : bool :=
  let text :=
    toLowerCase (questionText state ++ js " " ++ join (js " ") (supportText state)) in
  if existsb (includes text)
       [js "thank you"; js "thanks"; js "submitted"; js "successfully"; js "start again"]
  then true
  else if existsb (matchesWord text) [js "completed"; js "finished"] then true
  else false.

Definition isKnownSurveyProvider (hostname : jsstring) : bool :=
  existsb (includes hostname)
    [js "typeform.com"; js "surveymonkey.com"; js "qualtrics.com";
     js "google.com/forms"; js "forms.gle"].

(** The drift check of the loop: the host the survey has left to, when
    that ends the run. *)
Definition externalExit (run : RunSurveyInput) (state : QuestionState) (k : nat)
    : option jsstring :=
  match hostnameOf (url state), hostnameOf (surveyUrl run) with
  | Some current, Some original =>
      if bool_decide (current ≠ original) && negb (isKnownSurveyProvider current)
         && bool_decide (1 < k)%nat
      then Some current else None
  | _, _ => None
  end.

(** The decision of a step: the decision source's, or the fallback when
    the request fails. *)
Definition decisionFor (run : RunSurveyInput) (w : StepWorld) (current : QuestionState)
    : Decision :=
  match llmDecision w with
  | Returned d => d
  | Thrown _ => fallbackDecision (runId run) current (strategy run) (ruleset run)
  end.

(** The variables of [runSurvey] that the loop assigns. *)
Record LoopState := {
  curStatus : RunStatus;
  curMessage : jsstring;
  curSteps : list StepResult;
  stagnantSteps : nat
}.

(** How an iteration ends: falling through to the next one, [break], or an
    exception (caught by the [try] around the loop). *)
Inductive Flow :=
  | Continue (vars : LoopState)
  | Break (vars : LoopState)
  | Throw (vars : LoopState) (error : option jsstring).

Definition flowState (f : Flow) : LoopState :=
  match f with
  | Continue vars | Break vars | Throw vars _ => vars
  end.

Definition finish (vars : LoopState) (s : RunStatus) (msg : jsstring) : LoopState :=
  {| curStatus := s; curMessage := msg; curSteps := curSteps vars;
     stagnantSteps := stagnantSteps vars |}.

(** [stepResult.artifacts.push(artifact)] on the record that was pushed
    last: the array is shared with the step list. *)
Definition pushArtifactToLast (recorded : list StepResult) (a : StepArtifact)
    : list StepResult :=
  match reverse recorded with
  | [] => []
  | last :: earlier =>
      reverse earlier ++
      [ {| step := step last; state := state last; decision := decision last;
           actionSucceeded := actionSucceeded last; progressed := progressed last;
           assertionsPassed := assertionsPassed last;
           assertionsFailed := assertionsFailed last;
           artifacts := artifacts last ++ [a] |} ]
  end.

(** The second half of an iteration, from [stateFingerprint(execution.afterState)]
    on: the progress verdict, the step record and the terminal checks. *)
Definition concludeStep (run : RunSurveyInput) (limit : Z) (w : StepWorld) (k : nat)
    (vars : LoopState) (current : QuestionState) (chosen : Decision)
    (shots : list StepArtifact) (execution : Execution.t) : Flow :=
  let beforeFingerprint := stateFingerprint current in
  let afterFingerprint := stateFingerprint (Execution.afterState execution) in
  let progressed0 :=
    Execution.progressed execution || bool_decide (afterFingerprint ≠ beforeFingerprint) in
  let progressed1 :=
    if bool_decide (0 < length (Execution.assertionsFailed execution))%nat
    then false else progressed0 in
  let stagnant := if negb progressed1 then S (stagnantSteps vars) else 0%nat in
  let stepResult :=
    {| step := k; state := current; decision := chosen;
       actionSucceeded := Execution.actionSucceeded execution;
       progressed := progressed1;
       assertionsPassed := Execution.assertionsPassed execution;
       assertionsFailed := Execution.assertionsFailed execution;
       artifacts := shots |} in
  let vars1 :=
    {| curStatus := curStatus vars; curMessage := curMessage vars;
       curSteps := curSteps vars ++ [stepResult]; stagnantSteps := stagnant |} in
  if bool_decide (action chosen = ClickSubmit)
     && (isCompletionLikely (Execution.afterState execution) || negb progressed1)
  then Break (finish vars1 Success (js "Survey submission step executed."))
  else if isCompletionLikely (Execution.afterState execution)
  then Break (finish vars1 Success (js "Survey appears complete."))
  else if bool_decide (2 ≤ stagnant)%nat then
    if negb (captureScreenshots run) then
      match screenshot w (js "stagnant") with
      | Thrown e => Throw vars1 e
      | Returned _ =>
          Break {| curStatus := Blocked;
                   curMessage := js "Runner cannot progress after repeated attempts.";
                   curSteps :=
                     pushArtifactToLast (curSteps vars1)
                       (screenshotArtifact (artifactsDir run) (js "stagnant") k);
                   stagnantSteps := stagnant |}
      end
    else Break (finish vars1 Blocked (js "Runner cannot progress after repeated attempts."))
  else if bool_decide (Z.of_nat k = limit)
  then Continue (finish vars1 Blocked
                   (js "Stopped after reaching maxSteps (" ++ integerToString limit ++ js ")."))
  else Continue vars1.

(** One iteration of the [for] loop. *)
Definition iteration (run : RunSurveyInput) (limit : Z) (w : StepWorld) (k : nat)
    (vars : LoopState) : Flow :=
  match extracted w with
  | Thrown e => Throw vars e
  | Returned current =>
      if isCompletionLikely current
      then Break (finish vars Success
                    (js "Survey appears complete (detected completion text)."))
      else
        match externalExit run current k with
        | Some host =>
            Break (finish vars Success (js "Survey exited to external domain: " ++ host))
        | None =>
            let chosen := decisionFor run w current in
            match (if captureScreenshots run || needs_screenshot chosen
                   then match screenshot w (js "pre-action") with
                        | Returned _ =>
                            Returned [screenshotArtifact (artifactsDir run) (js "pre-action") k]
                        | Thrown e => Thrown e
                        end
                   else Returned []) with
            | Thrown e => Throw vars e
            | Returned shots =>
                if negb (completeSurvey run) && bool_decide (1 < k)%nat
                then Break (finish vars Success
                              (js "Stopped before completion because completeSurvey=false."))
                else if bool_decide (action chosen = CannotProceed) then
                  match (if negb (captureScreenshots run)
                         then match screenshot w (js "cannot-proceed") with
                              | Returned _ =>
                                  Returned (shots ++ [screenshotArtifact (artifactsDir run)
                                                        (js "cannot-proceed") k])
                              | Thrown e => Thrown e
                              end
                         else Returned shots) with
                  | Thrown e => Throw vars e
                  | Returned shots' =>
                      Break {| curStatus := Blocked;
                               curMessage := js "LLM reported cannot_proceed at step "
                                             ++ numberToString k ++ js ".";
                               curSteps :=
                                 curSteps vars ++
                                 [ {| step := k; state := current; decision := chosen;
                                      actionSucceeded := false; progressed := false;
                                      assertionsPassed := [];
                                      assertionsFailed := [js "Cannot proceed."];
                                      artifacts := shots' |} ];
                               stagnantSteps := stagnantSteps vars |}
                  end
                else
                  match executed w with
                  | Thrown e => Throw vars e
                  | Returned browser =>
                      concludeStep run limit w k vars current chosen shots
                        (executeDecision current chosen browser)
                  end
            end
        end
  end.

(** [for (let step = 1; step <= maxSteps; step += 1)], entered at step [k]
    with [fuel] iterations left before the bound. *)
Fixpoint stepLoop (run : RunSurveyInput) (limit : Z) (world : World) (fuel k : nat)
    (vars : LoopState) : Flow :=
  match fuel with
  | O => Continue vars
  | S fuel' =>
      match iteration run limit (atStep world k) k vars with
      | Continue vars' => stepLoop run limit world fuel' (S k) vars'
      | ended => ended
      end
  end.

(** The retry loop of the opening phase; [fuel] is [maxRetries - retries]. *)
Fixpoint openingLoop (extracts : nat → awaited QuestionState) (fuel retries : nat)
    (initialState : QuestionState) : awaited QuestionState :=
  match fuel with
  | O => Returned initialState
  | S fuel' =>
      if isValidSurveySurface initialState then Returned initialState
      else match extracts (S retries) with
           | Thrown e => Thrown e
           | Returned next => openingLoop extracts fuel' (S retries) next
           end
  end.

Definition opening (world : World) : awaited QuestionState :=
  match navigated world with
  | Thrown e => Thrown e
  | Returned _ =>
      match openingExtracts world 0%nat with
      | Thrown e => Thrown e
      | Returned first => openingLoop (openingExtracts world) 10 0 first
      end
  end.

Definition report (run : RunSurveyInput) (s : RunStatus) (msg : jsstring)
    (recorded : list StepResult) : RunReport :=
  {| reportRunId := runId run; reportSurveyUrl := surveyUrl run; status := s;
     steps := recorded; message := msg; reportArtifactsDir := artifactsDir run |}.

(** The [catch] of [runSurvey]. *)
Definition failed (run : RunSurveyInput) (recorded : list StepResult)
    (error : option jsstring) : RunReport :=
  report run Error (default (js "Unexpected runner error.") error) recorded.

Definition runSurvey (run : RunSurveyInput) (world : World) : RunReport :=
  let limit := default 40 (maxSteps run) in
  match opening world with
  | Thrown e => failed run [] e
  | Returned initialState =>
      if negb (isValidSurveySurface initialState) then
        match (if captureScreenshots run then invalidSurfaceScreenshot world
               else Returned ()) with
        | Thrown e => failed run [] e
        | Returned _ =>
            report run Blocked
              (js "Survey page loaded but no visible question/input was detected.") []
        end
      else
        match stepLoop run limit world (Z.to_nat limit) 1
                {| curStatus := Success; curMessage := js "Survey run completed.";
                   curSteps := []; stagnantSteps := 0 |} with
        | Continue vars | Break vars =>
            report run (curStatus vars) (curMessage vars) (curSteps vars)
        | Throw vars e => failed run (curSteps vars) e
        end
  end.

(** ** Stagnant steps

    The opening phase found a valid surface. *)
Definition surfaceFound (world : World) : bool :=
  match opening world with
  | Returned initialState => isValidSurveySurface initialState
  | Thrown _ => false
  end.

(** Step [k] is executed without meeting a terminal check, its decision is
    neither [cannot_proceed] nor [click_submit], and the execution fails
    an assertion and leaves the fingerprint as it was. *)
Definition stagnatesAt (run : RunSurveyInput) (w : StepWorld) (k : nat) : bool :=
  match extracted w, executed w with
  | Returned current, Returned browser =>
      let chosen := decisionFor run w current in
      let execution := executeDecision current chosen browser in
      negb (isCompletionLikely current)
      && bool_decide (externalExit run current k = None)
      && bool_decide (action chosen ≠ CannotProceed)
      && bool_decide (action chosen ≠ ClickSubmit)
      && (if captureScreenshots run || needs_screenshot chosen
          then match screenshot w (js "pre-action") with
               | Returned _ => true
               | Thrown _ => false
               end
          else true)
      && bool_decide (Execution.assertionsFailed execution ≠ [])
      && bool_decide (stateFingerprint (Execution.afterState execution)
                      = stateFingerprint current)
      && negb (isCompletionLikely (Execution.afterState execution))
  | _, _ => false
  end.

End Engine.

(** ** Sample states and rulesets *)

Definition optionsOf (labels : list string) : list SurveyOption :=
  (λ l, {| label := js l; selected := false |}) <$> labels.

Definition sampleState (kind : InputType) (question : string) (labels : list string)
    : QuestionState :=
  {| questionText := js question; supportText := []; inputType := kind;
     options := optionsOf labels; filledValue := []; navigationButtons := [js "Next"];
     progress := None; visibleInputCount := length labels;
     url := js "https://surveys.example/s/1" |}.

Arguments sampleState kind question%_string labels%_list.

Definition multiRuleset (m : MultiMode) (count : option Z) : option RulesetConfig :=
  Some {| singleSelect := None; multiSelect := Some {| mode := m; n := count |}; text := None |}.

(** The same question as [sampleState MultiSelect "Pick" ["a"; "b"; "c"]%string], read
    later: another url, a support heading, one option already selected. *)
Definition revisitedState : QuestionState :=
  {| questionText := js "Pick"; supportText := [js "Choose any"]; inputType := MultiSelect;
     options := [ {| label := js "a"; selected := true |};
                  {| label := js "b"; selected := false |};
                  {| label := js "c"; selected := false |} ];
     filledValue := js "x"; navigationButtons := []; progress := Some (js "50%");
     visibleInputCount := 7; url := js "https://surveys.example/s/2" |}.


Definition elevenOptions : QuestionState :=
  sampleState MultiSelect "Pick" ["a"; "b"; "c"; "d"; "e"; "f"; "g"; "h"; "i"; "j"; "k"]%string.

(** The question of [sampleState SingleSelect "Pick" ["a"; "b"]] as another
    snapshot: everything the fingerprint does not read is different. *)
Definition relocatedState : QuestionState :=
  {| questionText := js "Pick"; supportText := [js "One answer only"]; inputType := Unknown;
     options := optionsOf ["a"; "b"]%string; filledValue := [];
     navigationButtons := [js "Back"; js "Continue"]; progress := None;
     visibleInputCount := 9; url := js "https://forms.example/embedded" |}.

(** A snapshot in which nothing actionable was found. *)
Definition emptySurface : QuestionState :=
  {| questionText := js "Survey step"; supportText := []; inputType := Unknown;
     options := []; filledValue := []; navigationButtons := []; progress := None;
     visibleInputCount := 0; url := js "https://surveys.example/s/1" |}.

Definition withVisibleInputCount (s : QuestionState) (count : nat) : QuestionState :=
  {| questionText := questionText s; supportText := supportText s; inputType := inputType s;
     options := options s; filledValue := filledValue s;
     navigationButtons := navigationButtons s; progress := progress s;
     visibleInputCount := count; url := url s |}.

Definition withNavigationButtons (s : QuestionState) (labels : list jsstring) : QuestionState :=
  {| questionText := questionText s; supportText := supportText s; inputType := inputType s;
     options := options s; filledValue := filledValue s;
     navigationButtons := labels; progress := progress s;
     visibleInputCount := visibleInputCount s; url := url s |}.

Definition radio (l : string) : Control := {| visible := true; name := js l; marked := false |}.

(** A page with two radio buttons, "Yes" and "No", under one heading. *)
Definition yesNoSurface : Surface :=
  {| headings := [ {| visible := true; name := js "Do you agree?"; marked := false |} ];
     legends := []; buttons := [ {| visible := true; name := js "Next"; marked := false |} ];
     radios := [radio "Yes"; radio "No"]; checkboxes := []; textboxes := [];
     progressbars := []; bodyProgressText := []; location := js "https://surveys.example/s/1" |}.

(** A page with a radio group, a checkbox and a visible text input. *)
Definition mixedSurface : Surface :=
  {| headings := []; legends := [(true, js " Contact  ")]; buttons := [];
     radios := [radio "Mail"; radio "Phone"]; checkboxes := [radio "Subscribe"];
     textboxes := [ {| shown := true; value := js "" |} ];
     progressbars := []; bodyProgressText := js "2 of 5";
     location := js "https://surveys.example/s/1" |}.

(** A text question whose heading does not name the e-mail address that its
    supporting heading asks for. *)
Definition contactState : QuestionState :=
  {| questionText := js "Contact details"; supportText := [js "Your Email address"];
     inputType := TextInput; options := []; filledValue := [];
     navigationButtons := [js "Next"]; progress := None; visibleInputCount := 1;
     url := js "https://surveys.example/s/1" |}.

Definition emailState : QuestionState :=
  {| questionText := js "Email address"; supportText := [];
     inputType := TextInput; options := []; filledValue := [];
     navigationButtons := [js "Next"]; progress := None; visibleInputCount := 1;
     url := js "https://surveys.example/s/1" |}.

(** [{text: {default: "N/A", byKeyword: {"email": "a@b.com"}}}] *)
Definition emailRuleset : option RulesetConfig :=
  Some {| singleSelect := None; multiSelect := None;
          text := Some {| default_ := Some (js "N/A");
                          byKeyword := Some [(js "email", js "a@b.com")] |} |}.

(** ** Sample runs *)

(** The host of an [https] url without port or credentials. *)
Fixpoint untilSlash (s : jsstring) : jsstring :=
  match s with
  | [] => []
  | c :: s' => if c =? 47 then [] else c :: untilSlash s'
  end.

Definition httpsHostname (u : jsstring) : option jsstring :=
  if startsWith u (js "https://") then Some (untilSlash (drop 8 u)) else None.

Definition sampleRun (limit : option Z) : RunSurveyInput :=
  {| runId := js "run-1"; surveyUrl := js "https://surveys.example/s/1";
     strategy := StrategyFirst; captureScreenshots := false; completeSurvey := true;
     ruleset := None; artifactsDir := js "artifacts/run-1"; maxSteps := limit |}.

Definition stuckState : QuestionState := sampleState SingleSelect "Pick" ["a"; "b"]%string.

(** A page on which no click lands and nothing ever changes. *)
Definition stuckBrowser : Browser :=
  {| attempts := λ _, Returned false; polls := [stuckState; stuckState];
     settled := stuckState |}.

Definition stuckWorld (answer : Decision) : World :=
  {| navigated := Returned ();
     openingExtracts := λ _, Returned stuckState;
     invalidSurfaceScreenshot := Returned ();
     atStep := λ _, {| extracted := Returned stuckState;
                       llmDecision := Returned answer;
                       screenshot := λ _, Returned ();
                       executed := Returned stuckBrowser |} |}.

Definition submitDecision : Decision :=
  {| action := ClickSubmit; selections := []; decisionText := [];
     confidence := 9 # 10; reason := js "All questions answered.";
     needs_screenshot := false; assertions := [js "Your answers were sent"] |}.

Definition selectDecision : Decision :=
  {| action := SelectSingleAction; selections := [ {| selectionLabel := js "a" |} ];
     decisionText := []; confidence := 9 # 10; reason := js "First option.";
     needs_screenshot := false; assertions := [] |}.

(** ** Definitions used to state the properties *)

(** The hash in the words of the specification: the polynomial
    [c0 * 31^(k-1) + ... + c(k-1)] in the code units, reduced modulo 2^32. *)
Fixpoint polynomial (seed : jsstring) : Z :=
  match seed with
  | [] => 0
  | c :: rest => c * 31 ^ Z.of_nat (length rest) + polynomial rest
  end.

Definition polynomialRollingHash (seed : jsstring) : Z := polynomial seed `mod` 2 ^ 32.

(** Every entry is filed under the label of its option, labels are not
    empty, and no label occurs twice. *)
Definition wellKeyed (m : OptionsMap) : Prop :=
  NoDup m.*1 ∧ Forall (λ e, e.1 = label e.2 ∧ e.1 ≠ []) m.

(** The verdict of [runSurvey] on an executed step. *)
Definition verdict (current : QuestionState) (execution : Execution.t) : bool :=
  if bool_decide (0 < length (Execution.assertionsFailed execution))%nat then false
  else Execution.progressed execution
       || bool_decide (stateFingerprint (Execution.afterState execution)
                       ≠ stateFingerprint current).

(** ** Runs seen as step lists *)

(** No step that did not progress directly follows another one. *)
Definition noStall (recorded : list StepResult) : Prop :=
  ∀ i a b, recorded !! i = Some a → recorded !! S i = Some b →
           progressed a = false → progressed b = false → False.

(** Two steps in a row that did not progress are the last two. *)
Definition stallsOnlyAtEnd (recorded : list StepResult) : Prop :=
  ∀ i a b, recorded !! i = Some a → recorded !! S i = Some b →
           progressed a = false → progressed b = false → S (S i) = length recorded.

(** What the loop keeps true from iteration to iteration, entering
    iteration [k]: the steps so far are numbered 1..[k-1], none of them
    follows another without progress, the stagnation counter is 0 only
    after a step that progressed (or before the first step), and the status
    is not [running]. *)
Definition loopInvariant (k : nat) (vars : LoopState) : Prop :=
  step <$> curSteps vars = seq 1 (length (curSteps vars))
  ∧ S (length (curSteps vars)) = k
  ∧ noStall (curSteps vars)
  ∧ (stagnantSteps vars = 0%nat →
     ∀ a, list.last (curSteps vars) = Some a → progressed a = true)
  ∧ curStatus vars ≠ Running.

(** ** The runner ([apps/runner/src/lib])

    *** [sheet.ts] *)

(** [result[key] = value] on an object written [{}], for a string [value]:
    the key [__proto__] reaches the setter that [Object.prototype] provides,
    which ignores a string, so that no property is created. *)
Definition assign (result : gmap jsstring jsstring) (key value : jsstring)
    : gmap jsstring jsstring :=
  if decide (key = js "__proto__") then result else <[key := value]> result.

(** [toKeyValue], once [parse] has split the text into rows of cells. *)
Definition toKeyValue (rows : list (list jsstring)) : gmap jsstring jsstring :=
  foldl (λ result row,
           match trim <$> row !! 0%nat with
           | Some key =>
               if truthy key then assign result key (default [] (trim <$> row !! 1%nat))
               else result
           | None => result
           end)
        ∅ rows.

(** *** The request schemas and [run-controller.ts] *)

(** The fields of a run request that reach the engine's input. *)
Record RunRequest := {
  requestSurveyUrl : jsstring;
  requestStrategy : AnswerStrategy;
  requestRuleset : option RulesetConfig;
  requestCaptureScreenshots : bool;
  requestCompleteSurvey : bool;
  requestMaxSteps : option Z
}.

(** What [rulesetSchema] asks of the numbers of a ruleset: [multiSelect.n],
    when given, is an integer from 1 to 10. *)
Definition rulesetSchema (given : option RulesetConfig) : bool :=
  match (given ≫= multiSelect) ≫= n with
  | Some count => (1 <=? count) && (count <=? 10)
  | None => true
  end.

(** What [runRequestSchema] asks of the ruleset and of [maxSteps], an
    integer from 1 to 100 when given. *)
Definition runRequestSchema (input : RunRequest) : bool :=
  rulesetSchema (requestRuleset input)
  && match requestMaxSteps input with
     | Some limit => (1 <=? limit) && (limit <=? 100)
     | None => true
     end.

(** The ruleset that [startRun] hands to [runSurvey]: a copy built with
    [...(x ? { x } : {})], which leaves out [n] when it is 0 and [default]
    when it is the empty string. *)
Definition forwardRuleset (given : option RulesetConfig) : option RulesetConfig :=
  (λ r,
     {| singleSelect := singleSelect r;
        multiSelect :=
          (λ m, {| mode := mode m;
                   n := n m ≫= (λ count, if decide (count = 0) then None else Some count) |})
            <$> multiSelect r;
        text :=
          (λ t, {| default_ := default_ t ≫= (λ d, if truthy d then Some d else None);
                   byKeyword := byKeyword t |})
            <$> text r |})
    <$> given.

(** The input of [runSurvey] in [startRun], for the run id drawn and the
    artifacts directory derived from it. *)
Definition startRunInput (newRunId dir : jsstring) (input : RunRequest) : RunSurveyInput :=
  {| runId := newRunId; surveyUrl := requestSurveyUrl input;
     strategy := requestStrategy input;
     captureScreenshots := requestCaptureScreenshots input;
     completeSurvey := requestCompleteSurvey input;
     ruleset := forwardRuleset (requestRuleset input);
     artifactsDir := dir;
     maxSteps :=
       requestMaxSteps input ≫= (λ limit, if decide (limit = 0) then None else Some limit) |}.

(** A sheet with a padded key, a row without value, a repeated key and two
    rows that leave no entry. *)
Definition sampleRows : list (list jsstring) :=
  [ [js " name "; js "Ada"]; [js "city"]; [js ""; js "x"]; [js "__proto__"; js "y"];
    [js "name"; js " Grace "; js "ignored"] ].

Definition sampleRequest (given : option RulesetConfig) (limit : option Z) : RunRequest :=
  {| requestSurveyUrl := js "https://surveys.example/s/1"; requestStrategy := StrategyRuleset;
     requestRuleset := given; requestCaptureScreenshots := false;
     requestCompleteSurvey := true; requestMaxSteps := limit |}.

(** [{text: {default: ""}}] *)
Definition blankDefaultRuleset : option RulesetConfig :=
  Some {| singleSelect := None; multiSelect := None;
          text := Some {| default_ := Some []; byKeyword := None |} |}.

(** A decision that gives up, and a run asked not to complete the survey. *)
Definition refusalDecision : Decision :=
  {| action := CannotProceed; selections := []; decisionText := [];
     confidence := 1 # 10; reason := js "Captcha."; needs_screenshot := true;
     assertions := [] |}.

Definition previewRun : RunSurveyInput :=
  {| runId := js "run-1"; surveyUrl := js "https://surveys.example/s/1";
     strategy := StrategyFirst; captureScreenshots := false; completeSurvey := false;
     ruleset := None; artifactsDir := js "artifacts/run-1"; maxSteps := None |}.

(** * Properties *)

(** ** Strings *)

Lemma startsWith_spec s p : startsWith s p = true ↔ ∃ rest, s = p ++ rest.
Proof.
  revert s. induction p as [|c p IH]; intros s; simpl.
  - split; [by exists s|done].
  - destruct s as [|d s].
    + split; [done|]. intros [rest Hrest]. discriminate.
    + rewrite andb_true_iff, bool_decide_eq_true, IH. split.
      * intros [-> [rest ->]]. eauto.
      * intros [rest Hrest]. injection Hrest as -> ->. eauto.
Qed.

(** [includes] finds exactly the contiguous occurrences. *)
Lemma includes_spec s needle :
  includes s needle = true ↔ ∃ before after, s = before ++ needle ++ after.
Proof.
  induction s as [|c s IH].
  - simpl. rewrite orb_false_r, startsWith_spec. split.
    + intros [rest Hrest]. exists [], rest. done.
    + intros [before [after Heq]]. destruct before; [by eauto|discriminate].
  - cbn [includes]. rewrite orb_true_iff, startsWith_spec, IH. split.
    + intros [[rest Hrest]|[before [after Heq]]].
      * exists [], rest. done.
      * exists (c :: before), after. by rewrite Heq.
    + intros [before [after Heq]]. destruct before as [|d before].
      * left. eauto.
      * right. injection Heq as -> ->. eauto.
Qed.

(** ** The seeded hash *)

Lemma foldl_hashStep seed : ∀ h,
  0 ≤ h < 2 ^ 32 →
  foldl hashStep h seed = (h * 31 ^ Z.of_nat (length seed) + polynomial seed) `mod` 2 ^ 32.
Proof.
  induction seed as [|c rest IH]; intros h Hh.
  - simpl. rewrite Z.add_0_r, Z.mul_1_r, Z.mod_small; lia.
  - cbn [foldl polynomial length]. rewrite IH by (apply Z.mod_pos_bound; lia).
    unfold hashStep. rewrite Nat2Z.inj_succ, Z.pow_succ_r by lia.
    rewrite Z.add_mod, Z.mul_mod, Z.mod_mod by lia.
    rewrite <- Z.mul_mod, <- Z.add_mod by lia. f_equal. ring.
Qed.

Lemma seedHash_polynomial seed : seedHash seed = polynomialRollingHash seed.
Proof.
  unfold seedHash, polynomialRollingHash. rewrite foldl_hashStep by lia. f_equal.
Qed.

Lemma seedHash_range seed : 0 ≤ seedHash seed < 2 ^ 32.
Proof. rewrite seedHash_polynomial. apply Z.mod_pos_bound. lia. Qed.

(** No intermediate value of the loop leaves the range in which a double
    is an exact integer, which is what makes [hashStep] the code's [>>> 0]. *)
Lemma hashStep_exact hash c :
  0 ≤ hash < 2 ^ 32 → 0 ≤ c < 2 ^ 16 → 0 ≤ hash * 31 + c < 2 ^ 53.
Proof. lia. Qed.

(** ** The selection loop *)

Lemma randomLoop_stop runId state count chosen result :
  ¬ ((0 < length chosen)%nat ∧ Z.of_nat (length result) < count) →
  randomLoop runId state count chosen result = result.
Proof.
  intros Hstop. rewrite randomLoop_equation_1.
  destruct (decide _) as [Hgo|Hno]; [contradiction|reflexivity].
Qed.

Lemma randomLoop_step runId state count chosen result :
  (0 < length chosen)%nat → Z.of_nat (length result) < count →
  randomLoop runId state count chosen result =
  let idx := seededIndex (randomSeed runId state (length result)) (length chosen) in
  randomLoop runId state count (delete idx chosen)
    (match chosen !! idx with
     | Some l => if truthy l then result ++ [l] else result
     | None => result
     end).
Proof.
  intros Hpos Hlt. rewrite randomLoop_equation_1.
  destruct (decide _) as [Hgo|Hstop]; [|lia].
  apply randomLoop_clause_1_equation_1.
Qed.

(** The loop reads the state only through its question text. *)
Lemma randomLoop_questionText runId s1 s2 count chosen :
  questionText s1 = questionText s2 →
  ∀ result, randomLoop runId s1 count chosen result = randomLoop runId s2 count chosen result.
Proof.
  intros Hq. induction chosen as [chosen IH] using (induction_ltof1 _ length).
  unfold ltof in IH. intros result.
  destruct (decide ((0 < length chosen)%nat ∧ Z.of_nat (length result) < count))
    as [[Hpos Hlt]|Hstop].
  - rewrite (randomLoop_step runId s1 count chosen result) by assumption.
    rewrite (randomLoop_step runId s2 count chosen result) by assumption.
    cbn zeta. unfold randomSeed. rewrite Hq. apply IH.
    rewrite length_delete; [lia|].
    apply lookup_lt_is_Some, seededIndex_lt, Hpos.
  - by rewrite !randomLoop_stop.
Qed.


(** What the loop adds to [result]: a sub-multiset of the pool, never more
    labels than are still wanted, and exactly as many as wanted (or as the
    pool holds) when the pool has no empty label. *)
Lemma randomLoop_picks runId state count chosen : ∀ result,
  ∃ picked,
    randomLoop runId state count chosen result = result ++ picked
    ∧ picked ⊆+ chosen
    ∧ (length picked ≤ Z.to_nat (count - Z.of_nat (length result)))%nat
    ∧ (Forall (λ l, l ≠ []) chosen →
       length picked = (Z.to_nat (count - Z.of_nat (length result)) `min` length chosen)%nat).
Proof.
  induction chosen as [chosen IH] using (induction_ltof1 _ length).
  unfold ltof in IH. intros result.
  destruct (decide ((0 < length chosen)%nat ∧ Z.of_nat (length result) < count))
    as [[Hpos Hlt]|Hstop].
  - rewrite randomLoop_step by assumption. cbn zeta.
    set (idx := seededIndex _ _).
    assert (idx < length chosen)%nat as Hidx by (apply seededIndex_lt, Hpos).
    destruct (lookup_lt_is_Some_2 chosen idx Hidx) as [l Hl]. rewrite Hl.
    assert (length (delete idx chosen) < length chosen)%nat as Hdec
      by (rewrite length_delete by eauto; lia).
    pose proof (delete_Permutation chosen idx l Hl) as Hperm.
    assert (length chosen = S (length (delete idx chosen))) as Hlen
      by (rewrite Hperm at 1; reflexivity).
    destruct (truthy l) eqn:Htruthy.
    + destruct (IH _ Hdec (result ++ [l])) as (picked & Heq & Hsub & Hle & Hfull).
      exists (l :: picked). rewrite Heq, <- app_assoc.
      rewrite length_app in Hle, Hfull. cbn [length] in *.
      split_and!.
      * reflexivity.
      * rewrite Hperm. by apply submseteq_skip.
      * lia.
      * intros Hne. rewrite Hfull by (by apply Forall_delete). lia.
    + destruct (IH _ Hdec result) as (picked & Heq & Hsub & Hle & Hfull).
      exists picked. split_and!.
      * assumption.
      * etrans; [exact Hsub|]. apply sublist_submseteq, sublist_delete.
      * assumption.
      * intros Hne. destruct l; [|discriminate].
        by destruct (Forall_lookup_1 _ _ _ _ Hne Hl).
  - rewrite randomLoop_stop by assumption. exists [].
    rewrite app_nil_r. split_and!; [reflexivity|apply submseteq_nil_l|simpl; lia|].
    intros _. simpl. destruct chosen; simpl in *; lia.
Qed.

(** ** Positional and seeded picks *)

Lemma pickByMode_lookup labels m seed :
  labels ≠ [] → ∃ i, labels !! i = Some (pickByMode labels m seed).
Proof.
  intros Hne. unfold pickByMode.
  assert (0 < length labels)%nat as Hpos by (destruct labels; [done|simpl; lia]).
  destruct (decide (length labels = 0%nat)); [lia|].
  destruct m.
  - destruct (lookup_lt_is_Some_2 labels 0%nat Hpos) as [l Hl].
    exists 0%nat. by rewrite Hl.
  - destruct (lookup_lt_is_Some_2 labels (length labels - 1)%nat ltac:(lia)) as [l Hl].
    exists (length labels - 1)%nat. by rewrite Hl.
  - destruct (lookup_lt_is_Some_2 labels _ (seededIndex_lt seed _ Hpos)) as [l Hl].
    exists (seededIndex seed (length labels)). by rewrite Hl.
Qed.

Lemma pickByMode_elem labels m seed : labels ≠ [] → pickByMode labels m seed ∈ labels.
Proof.
  intros Hne. destruct (pickByMode_lookup labels m seed Hne) as [i Hi].
  by eapply list_elem_of_lookup_2.
Qed.

Lemma labels_nil (s : QuestionState) : label <$> options s = [] ↔ options s = [].
Proof. split; [apply fmap_nil_inv|by intros ->]. Qed.

Lemma truthy_filter l :
  filter (λ l, truthy l = true) [l] = if truthy l then [l] else [].
Proof.
  by destruct l.
Qed.

(** Outside the ruleset strategy both branches of the code compute the same
    list: the pick, unless it is the empty string. *)
Lemma deterministicSelection_positional s strategy ruleset runId :
  strategy ≠ StrategyRuleset → options s ≠ [] →
  deterministicSelection s strategy ruleset runId =
  let m := match strategy with
           | StrategyFirst => PickFirst
           | StrategyLast => PickLast
           | _ => PickRandom
           end in
  let picked := pickByMode (label <$> options s) m (selectionSeed runId s) in
  if truthy picked then [picked] else [].
Proof.
  intros Hstrategy Hopts. unfold deterministicSelection. cbn zeta.
  destruct (decide (length (label <$> options s) = 0%nat)) as [Hlen|_].
  { apply length_zero_iff_nil, labels_nil in Hlen. contradiction. }
  destruct (decide (strategy ≠ StrategyRuleset)); [|contradiction].
  destruct (decide (inputType s = MultiSelect)); [reflexivity|apply truthy_filter].
Qed.

(** ** Claims about the strategy engine *)

(** C4. [deterministicSelection] reads its state only through the question
    text, the option labels and the input type: two states that agree on
    these give the same labels for the same run id, strategy and ruleset.
    Under the [random] strategy the label returned is the one at index
    (polynomial rolling hash of [runId:questionText]) modulo the number of
    options, dropped only if it is the empty string. *)
Theorem deterministicSelection_pure s1 s2 strategy ruleset runId :
  questionText s1 = questionText s2 →
  label <$> options s1 = label <$> options s2 →
  inputType s1 = inputType s2 →
  deterministicSelection s1 strategy ruleset runId =
  deterministicSelection s2 strategy ruleset runId
  ∧ (strategy = StrategyRandom → options s1 ≠ [] →
     let labels := label <$> options s1 in
     let idx := Z.to_nat (polynomialRollingHash (runId ++ js ":" ++ questionText s1)
                          `mod` Z.of_nat (length labels)) in
     (idx < length labels)%nat
     ∧ deterministicSelection s1 strategy ruleset runId =
       filter (λ l, truthy l = true) [default [] (labels !! idx)]).
Proof.
  intros Hq Hlabels Htype. split.
  - unfold deterministicSelection, selectionSeed. cbn zeta.
    rewrite Hq, Hlabels, Htype.
    by rewrite (randomLoop_questionText runId s1 s2 _ _ Hq).
  - intros -> Hopts. cbn zeta.
    assert (0 < length (label <$> options s1))%nat as Hpos.
    { rewrite length_fmap. destruct (options s1); [done|simpl; lia]. }
    split.
    + pose proof (Z.mod_pos_bound
        (polynomialRollingHash (runId ++ js ":" ++ questionText s1))
        (Z.of_nat (length (label <$> options s1)))). lia.
    + rewrite deterministicSelection_positional by done. cbn zeta.
      rewrite truthy_filter. unfold pickByMode, seededIndex, selectionSeed.
      destruct (decide (length (label <$> options s1) = 0%nat)); [lia|].
      by rewrite seedHash_polynomial.
Qed.

Lemma deterministicSelection_pure_witness :
  deterministicSelection (sampleState MultiSelect "Pick" ["a"; "b"; "c"]%string) StrategyRandom
    None (js "run-1")
  = deterministicSelection revisitedState StrategyRandom None (js "run-1")
  ∧ deterministicSelection (sampleState MultiSelect "Pick" ["a"; "b"; "c"]%string) StrategyRandom
      None (js "run-1") = [js "a"].
Proof.
  destruct (deterministicSelection_pure (sampleState MultiSelect "Pick" ["a"; "b"; "c"]%string)
              revisitedState StrategyRandom None (js "run-1")
              eq_refl eq_refl eq_refl) as [Hsame Hrandom].
  split; [exact Hsame|].
  destruct (Hrandom eq_refl ltac:(discriminate)) as [_ Hpick].
  rewrite Hpick. vm_compute. reflexivity.
Defined.




(** ** The ruleset strategy on multi-select questions *)

Lemma deterministicSelection_ruleset_multi s ruleset runId :
  inputType s = MultiSelect →
  deterministicSelection s StrategyRuleset ruleset runId =
  match multiSelectMode ruleset with
  | All => label <$> options s
  | RandomN => randomLoop runId s (effectiveN ruleset) (label <$> options s) []
  | FirstN => take (Z.to_nat (effectiveN ruleset)) (label <$> options s)
  end.
Proof.
  intros Htype. unfold deterministicSelection. cbn zeta. rewrite Htype.
  destruct (decide (length (label <$> options s) = 0%nat)) as [Hlen|_].
  - apply length_zero_iff_nil in Hlen. rewrite Hlen.
    destruct (multiSelectMode ruleset); [by rewrite take_nil|done|].
    by rewrite randomLoop_stop by (simpl; lia).
  - destruct (decide (StrategyRuleset ≠ StrategyRuleset)); [done|].
    destruct (decide (MultiSelect = MultiSelect)); [|done].
    by destruct (multiSelectMode ruleset).
Qed.

Lemma effectiveN_ge_1 ruleset : 1 ≤ effectiveN ruleset.
Proof. unfold effectiveN. lia. Qed.







(** ** Claims about the extractor predicates *)

(** C5. Two question states with the same question text, the same progress,
    the same ordered (label, selected) pairs and the same filled value have
    the same fingerprint, whatever their support text, input type,
    navigation buttons, visible input count and url. *)
Theorem stateFingerprint_stable s1 s2 :
  questionText s1 = questionText s2 →
  progress s1 = progress s2 →
  (λ o, (label o, selected o)) <$> options s1 = (λ o, (label o, selected o)) <$> options s2 →
  filledValue s1 = filledValue s2 →
  stateFingerprint s1 = stateFingerprint s2.
Proof.
  intros Hq Hp Ho Hf. unfold stateFingerprint. rewrite Hq, Hp, Hf.
  do 4 f_equal.
  change (λ o, label o ++ js ":" ++ (if selected o then js "1" else js "0"))
    with ((λ p : jsstring * bool, p.1 ++ js ":" ++ (if p.2 then js "1" else js "0"))
          ∘ (λ o, (label o, selected o))).
  by rewrite !list_fmap_compose, Ho.
Qed.

Lemma stateFingerprint_stable_witness :
  stateFingerprint (sampleState SingleSelect "Pick" ["a"; "b"]%string)
  = stateFingerprint relocatedState
  ∧ supportText (sampleState SingleSelect "Pick" ["a"; "b"]%string) ≠ supportText relocatedState
  ∧ url (sampleState SingleSelect "Pick" ["a"; "b"]%string) ≠ url relocatedState.
Proof.
  split_and!; [|discriminate|discriminate].
  apply (stateFingerprint_stable (sampleState SingleSelect "Pick" ["a"; "b"]%string)
           relocatedState); reflexivity.
Defined.

(** C6. A question state is a valid survey surface exactly when its visible
    input count is positive or it has a navigation button; so a state with
    count 0 and no navigation button is invalid, and giving it a positive
    count or a navigation button makes it valid. *)
Theorem isValidSurveySurface_iff s :
  (isValidSurveySurface s = true ↔
     (0 < visibleInputCount s)%nat ∨ navigationButtons s ≠ [])
  ∧ (visibleInputCount s = 0%nat → navigationButtons s = [] →
     isValidSurveySurface s = false
     ∧ (∀ count, count ≠ 0%nat →
          isValidSurveySurface (withVisibleInputCount s count) = true)
     ∧ (∀ button, isValidSurveySurface (withNavigationButtons s [button]) = true)).
Proof.
  assert (∀ t, isValidSurveySurface t = true ↔
               (0 < visibleInputCount t)%nat ∨ navigationButtons t ≠ []) as Hiff.
  { intros t. unfold isValidSurveySurface.
    destruct (decide (0 < visibleInputCount t)%nat) as [Hpos|Hzero].
    - split; [by left|done].
    - rewrite bool_decide_eq_true. split.
      + intros Hlen. right. intros Hnil. rewrite Hnil in Hlen. simpl in Hlen. lia.
      + intros [Hpos|Hne]; [lia|]. destruct (navigationButtons t); [done|simpl; lia]. }
  split; [apply Hiff|]. intros Hcount Hnav. split_and!.
  - apply not_true_is_false. rewrite Hiff, Hcount, Hnav. intros [?|?]; [lia|done].
  - intros count Hne. apply Hiff. left. simpl. lia.
  - intros button. apply Hiff. right. simpl. discriminate.
Qed.

Lemma isValidSurveySurface_iff_witness :
  isValidSurveySurface emptySurface = false
  ∧ isValidSurveySurface (withVisibleInputCount emptySurface 1) = true
  ∧ isValidSurveySurface (withNavigationButtons emptySurface [js "Next"]) = true.
Proof.
  destruct (isValidSurveySurface_iff emptySurface) as [_ Hempty].
  destruct (Hempty eq_refl eq_refl) as (Hinvalid & Hcount & Hbutton).
  split_and!; [exact Hinvalid|apply Hcount; discriminate|apply Hbutton].
Defined.

(** ** The options map of the extractor *)

Lemma mapSet_keys m key v :
  (mapSet m key v).*1 = if bool_decide (key ∈ m.*1) then m.*1 else m.*1 ++ [key].
Proof.
  induction m as [|[k x] m IH]; [done|]. cbn [mapSet fmap list_fmap fst].
  destruct (decide (k = key)) as [->|Hne].
  - rewrite bool_decide_eq_true_2 by (simpl; left). done.
  - cbn [fmap list_fmap fst]. fold (fmap (M:=list) (@fst jsstring SurveyOption)).
    rewrite IH. destruct (bool_decide_reflect (key ∈ m.*1)) as [Hin|Hnotin].
    + rewrite bool_decide_eq_true_2 by (simpl; by right). done.
    + rewrite bool_decide_eq_false_2; [done|].
      simpl. intros [Heq|Hin]%elem_of_cons; [by subst|done].
Qed.

Lemma mapSet_entries m key v e :
  e ∈ mapSet m key v → e ∈ m ∨ e = (key, v).
Proof.
  induction m as [|[k x] m IH]; simpl.
  - intros ->%list_elem_of_singleton. by right.
  - destruct (decide (k = key)) as [->|Hne].
    + intros [->|Hin]%elem_of_cons; [by right|left; by right].
    + intros [->|Hin]%elem_of_cons; [left; by left|].
      destruct (IH Hin) as [?|?]; [left; by right|by right].
Qed.

Lemma mapSet_wellKeyed m key sel :
  key ≠ [] → wellKeyed m → wellKeyed (mapSet m key {| label := key; selected := sel |}).
Proof.
  intros Hkey [Hnodup Hall]. split.
  - rewrite mapSet_keys. destruct (bool_decide_reflect (key ∈ m.*1)); [done|].
    apply list.NoDup_app. split_and!; [done| |apply NoDup_singleton].
    intros x Hx ->%list_elem_of_singleton. contradiction.
  - rewrite list.Forall_forall in Hall. apply list.Forall_forall. intros e He.
    destruct (mapSet_entries _ _ _ _ He) as [Hin| ->]; [by apply Hall|done].
Qed.

Lemma truthy_ne (l : jsstring) : truthy l = true → l ≠ [].
Proof. by destruct l. Qed.

Lemma readOptionsFromRole_wellKeyed items : ∀ m,
  wellKeyed m → wellKeyed (readOptionsFromRole items m).
Proof.
  unfold readOptionsFromRole.
  induction items as [|item items IH]; intros m Hm; [done|]. simpl. apply IH.
  destruct (visible item); [|done]. simpl.
  destruct (truthy (name item)) eqn:Hname; [|done].
  apply mapSet_wellKeyed; [by apply truthy_ne|done].
Qed.

Lemma readOptionButtons_wellKeyed items : ∀ m,
  wellKeyed m → wellKeyed (readOptionButtons items m).
Proof.
  unfold readOptionButtons.
  induction items as [|item items IH]; intros m Hm; [done|]. simpl. apply IH.
  destruct (visible item); [|done]. simpl.
  destruct (truthy (name item)) eqn:Hname; [|done]. simpl.
  destruct (negb (isNavigationLabel (name item))); [|done].
  destruct (mapHas m (name item)); [done|].
  apply mapSet_wellKeyed; [by apply truthy_ne|done].
Qed.

Lemma wellKeyed_labels m : wellKeyed m → label <$> m.*2 = m.*1.
Proof.
  intros [_ Hall]. induction m as [|[k v] m IH]; [done|].
  apply list.Forall_cons in Hall as [[Hk _] Hall]. rewrite !fmap_cons.
  f_equal; [by symmetry|by apply IH].
Qed.

Section ExtractorProperties.

Variable toLowerCase : jsstring → jsstring.

(** The options map [extractFromContext] builds for a surface. *)
Lemma extractFromContext_wellKeyed target :
  wellKeyed (readOptionButtons (buttons target)
               (readOptionsFromRole (checkboxes target)
                  (readOptionsFromRole (radios target) []))).
Proof.
  apply readOptionButtons_wellKeyed. do 2 apply readOptionsFromRole_wellKeyed.
  split; [apply NoDup_nil_2|apply Forall_nil_2].
Qed.

(** The options of an extracted state have pairwise distinct, non-empty
    labels. *)
Lemma extractFromContext_labels target :
  let labels := label <$> options (extractFromContext toLowerCase target) in
  NoDup labels ∧ Forall (λ l, l ≠ []) labels.
Proof.
  cbn zeta. cbn [extractFromContext options].
  pose proof (extractFromContext_wellKeyed target) as Hwell.
  rewrite (wellKeyed_labels _ Hwell). destruct Hwell as [Hnodup Hall].
  split; [exact Hnodup|].
  apply Forall_fmap. eapply list.Forall_impl; [exact Hall|]. by intros e [_ He].
Qed.

(** The yes/no test of the code, on labels. *)
Lemma yesNo_test (keys : list jsstring) :
  bool_decide (length (toLowerCase <$> keys) = 2%nat)
  && bool_decide (js "yes" ∈ toLowerCase <$> keys)
  && bool_decide (js "no" ∈ toLowerCase <$> keys) = true
  ↔ ∃ a b, keys = [a; b]
      ∧ ((toLowerCase a = js "yes" ∧ toLowerCase b = js "no")
         ∨ (toLowerCase a = js "no" ∧ toLowerCase b = js "yes")).
Proof.
  rewrite !andb_true_iff, !bool_decide_eq_true. split.
  - intros [[Hlen Hyes] Hno].
    destruct keys as [|a [|b [|c keys]]]; try discriminate.
    exists a, b. split; [done|].
    rewrite !fmap_cons, fmap_nil, !elem_of_cons, elem_of_nil in Hyes, Hno.
    destruct Hyes as [Hy|[Hy|[]]], Hno as [Hn|[Hn|[]]].
    + rewrite <- Hy in Hn. discriminate.
    + left. by split.
    + right. by split.
    + rewrite <- Hy in Hn. discriminate.
  - intros (a & b & -> & [[Ha Hb]|[Ha Hb]]);
      rewrite !fmap_cons, fmap_nil, !elem_of_cons, Ha, Hb; split_and!; auto.
Qed.

(** C7. The input type of an extracted state: [yes_no] when the
    deduplicated options are exactly two and their labels lower-case to
    "yes" and "no"; otherwise [text] when a text input is visible;
    otherwise [multi_select] when there is a checkbox; otherwise
    [single_select] when there is a radio button; otherwise [unknown]. *)
Theorem inputType_precedence target :
  let st := extractFromContext toLowerCase target in
  let labels := label <$> options st in
  let textCount := length (filter (λ box, shown box = true) (textboxes target)) in
  let checkboxCount := length (checkboxes target) in
  let radioCount := length (radios target) in
  let yesNo :=
    ∃ a b, labels = [a; b]
      ∧ ((toLowerCase a = js "yes" ∧ toLowerCase b = js "no")
         ∨ (toLowerCase a = js "no" ∧ toLowerCase b = js "yes")) in
  NoDup labels
  ∧ (yesNo → inputType st = YesNo)
  ∧ (¬ yesNo → (0 < textCount)%nat → inputType st = TextInput)
  ∧ (¬ yesNo → textCount = 0%nat → (0 < checkboxCount)%nat → inputType st = MultiSelect)
  ∧ (¬ yesNo → textCount = 0%nat → checkboxCount = 0%nat → (0 < radioCount)%nat →
     inputType st = SingleSelect)
  ∧ (¬ yesNo → textCount = 0%nat → checkboxCount = 0%nat → radioCount = 0%nat →
     inputType st = Unknown).
Proof.
  cbn zeta. split; [apply extractFromContext_labels|].
  cbn [extractFromContext options inputType].
  rewrite (wellKeyed_labels _ (extractFromContext_wellKeyed target)).
  set (keys := (readOptionButtons _ _).*1).
  unfold deriveInputType. cbn zeta.
  pose proof (yesNo_test keys) as Htest.
  destruct (bool_decide _ && bool_decide _ && bool_decide _).
  - split_and!; [done|intros Hno; contradict Hno; by apply Htest..].
  - assert (¬ ∃ a b, keys = [a; b]
              ∧ ((toLowerCase a = js "yes" ∧ toLowerCase b = js "no")
                 ∨ (toLowerCase a = js "no" ∧ toLowerCase b = js "yes"))) as Hno
      by (intros Hyes; by apply Htest in Hyes).
    split_and!.
    + intros Hyes. contradiction.
    + intros _ Htext. by rewrite (bool_decide_eq_true_2 _ Htext).
    + intros _ -> Hbox. rewrite (bool_decide_eq_true_2 _ Hbox).
      by rewrite bool_decide_eq_false_2 by lia.
    + intros _ -> -> Hradio. rewrite (bool_decide_eq_true_2 _ Hradio).
      rewrite (bool_decide_eq_true_2 (0%nat = 0%nat)) by done.
      by rewrite !bool_decide_eq_false_2 by lia.
    + intros _ -> -> ->. by rewrite !bool_decide_eq_false_2 by lia.
Qed.

End ExtractorProperties.

Lemma inputType_precedence_witness :
  inputType (extractFromContext foldAscii yesNoSurface) = YesNo
  ∧ inputType (extractFromContext foldAscii mixedSurface) = TextInput.
Proof.
  split.
  - destruct (inputType_precedence foldAscii yesNoSurface) as (_ & Hyes & _).
    apply Hyes. exists (js "Yes"), (js "No"). split; [reflexivity|]. left. split; reflexivity.
  - destruct (inputType_precedence foldAscii mixedSurface) as (_ & _ & Htext & _).
    apply Htext; [|vm_compute; lia].
    intros (a & b & Hlabels & _). vm_compute in Hlabels. discriminate.
Defined.

(** ** Claims about text answers *)

Lemma find_none {A} (f : A → bool) (l : list A) :
  Forall (λ x, f x = false) l → List.find f l = None.
Proof. induction 1 as [|x l Hx _ IH]; [done|]. simpl. by rewrite Hx. Qed.

Lemma find_first {A} (f : A → bool) (earlier later : list A) (e : A) :
  Forall (λ x, f x = false) earlier → f e = true →
  List.find f (earlier ++ e :: later) = Some e.
Proof.
  intros Hearlier He. induction Hearlier as [|x l Hx _ IH]; simpl.
  - by rewrite He.
  - by rewrite Hx.
Qed.

(** C9, as stated, fails: a keyword that occurs only in the support text,
    not in the question text, is matched as well. *)
Lemma chooseTextByRuleset_reads_supportText :
  includes (foldAscii (questionText contactState)) (foldAscii (js "email")) = false
  ∧ chooseTextByRuleset foldAscii contactState emailRuleset None = js "a@b.com"
  ∧ chooseTextByRuleset foldAscii contactState emailRuleset None ≠ js "N/A".
Proof. split_and!; [reflexivity|reflexivity|discriminate]. Qed.

Section TextProperties.

Variable toLowerCase : jsstring → jsstring.

(** C9 (amended). The text searched is the lower-cased question text
    followed by a space and the support texts joined by spaces.
    [chooseTextByRuleset] returns [text.default] ("AUTO_TEST_RESPONSE", or
    the caller's fallback, when unset) when no lower-cased key of
    [text.byKeyword] occurs in that text, and otherwise the value of the
    first entry, in the order of the entries, whose key does. *)
Theorem chooseTextByRuleset_first_match state ruleset fallback :
  let haystack :=
    toLowerCase (questionText state ++ js " " ++ join (js " ") (supportText state)) in
  let defaultValue :=
    default (default (js "AUTO_TEST_RESPONSE") fallback) ((ruleset ≫= text) ≫= default_) in
  let entries := default [] ((ruleset ≫= text) ≫= byKeyword) in
  let occurs (e : jsstring * jsstring) :=
    ∃ before after, haystack = before ++ toLowerCase e.1 ++ after in
  (Forall (λ e, ¬ occurs e) entries →
   chooseTextByRuleset toLowerCase state ruleset fallback = defaultValue)
  ∧ (∀ earlier e later,
       entries = earlier ++ e :: later → Forall (λ e', ¬ occurs e') earlier → occurs e →
       chooseTextByRuleset toLowerCase state ruleset fallback = e.2).
Proof.
  cbn zeta. unfold chooseTextByRuleset. cbn zeta.
  set (haystack := toLowerCase _).
  assert (∀ l, Forall (λ e : jsstring * jsstring,
                         ¬ ∃ before after, haystack = before ++ toLowerCase e.1 ++ after) l →
               Forall (λ e : jsstring * jsstring,
                         includes haystack (toLowerCase e.1) = false) l) as Hmiss.
  { intros l Hl. eapply list.Forall_impl; [exact Hl|]. intros e He.
    apply not_true_is_false. by rewrite includes_spec. }
  split.
  - intros Hnone. by rewrite (find_none _ _ (Hmiss _ Hnone)).
  - intros earlier e later -> Hearlier He.
    rewrite (find_first (λ e, includes haystack (toLowerCase e.1)) earlier later e);
      [done|by apply Hmiss|by apply includes_spec].
Qed.

End TextProperties.

Lemma chooseTextByRuleset_first_match_witness :
  chooseTextByRuleset foldAscii emailState emailRuleset None = js "a@b.com"
  ∧ chooseTextByRuleset foldAscii emailState None None = js "AUTO_TEST_RESPONSE".
Proof.
  split.
  - destruct (chooseTextByRuleset_first_match foldAscii emailState emailRuleset None)
      as [_ Hmatch].
    apply (Hmatch [] (js "email", js "a@b.com") []); [reflexivity|constructor|].
    exists [], (js " address "). reflexivity.
  - destruct (chooseTextByRuleset_first_match foldAscii emailState None None)
      as [Hdefault _].
    apply Hdefault. constructor.
Defined.

(** ** The step loop *)

Section EngineProperties.

Variable toLowerCase : jsstring → jsstring.
Variable hostnameOf : jsstring → option jsstring.

Lemma pushArtifactToLast_snoc recorded sr a :
  pushArtifactToLast (recorded ++ [sr]) a =
  recorded ++ [ {| step := step sr; state := state sr; decision := decision sr;
                   actionSucceeded := actionSucceeded sr; progressed := progressed sr;
                   assertionsPassed := assertionsPassed sr;
                   assertionsFailed := assertionsFailed sr;
                   artifacts := artifacts sr ++ [a] |} ].
Proof.
  unfold pushArtifactToLast. rewrite reverse_app. simpl.
  by rewrite reverse_involutive.
Qed.

(** An executed step adds exactly one record, which carries the verdict
    and the failed assertions of the execution. *)
Lemma concludeStep_recorded run limit w k vars current chosen shots execution :
  ∃ sr,
    curSteps
      (flowState (concludeStep toLowerCase run limit w k vars current chosen shots execution))
    = curSteps vars ++ [sr]
    ∧ step sr = k ∧ state sr = current ∧ decision sr = chosen
    ∧ actionSucceeded sr = Execution.actionSucceeded execution
    ∧ progressed sr = verdict current execution
    ∧ assertionsFailed sr = Execution.assertionsFailed execution.
Proof.
  unfold concludeStep, verdict. cbn zeta.
  set (progressed1 := if bool_decide (0 < length _)%nat then false else _).
  clearbody progressed1.
  repeat case_match; cbn [flowState finish curSteps];
    rewrite ?pushArtifactToLast_snoc;
    eexists; (split; [reflexivity|]); by cbn.
Qed.

(** An iteration records at most one step, numbered by the iteration, and
    never one that progressed with a failed assertion. *)
Lemma iteration_adds run limit w k vars :
  let vars' := flowState (iteration toLowerCase hostnameOf run limit w k vars) in
  curSteps vars' = curSteps vars
  ∨ ∃ sr, curSteps vars' = curSteps vars ++ [sr] ∧ step sr = k
      ∧ (progressed sr = true → assertionsFailed sr = []).
Proof.
  cbn zeta. unfold iteration.
  destruct (extracted w) as [current|e]; [|by left].
  destruct (isCompletionLikely toLowerCase current); [by left|].
  destruct (externalExit hostnameOf run current k); [by left|].
  set (chosen := decisionFor toLowerCase run w current).
  destruct (if captureScreenshots run || needs_screenshot chosen then _ else _)
    as [shots|e]; [|by left].
  destruct (negb (completeSurvey run) && bool_decide (1 < k)%nat); [by left|].
  destruct (bool_decide (action chosen = CannotProceed)).
  - destruct (if negb (captureScreenshots run) then _ else _) as [shots'|e]; [|by left].
    right. eexists. split; [reflexivity|]. by split.
  - destruct (executed w) as [browser|e]; [|by left].
    destruct (concludeStep_recorded run limit w k vars current chosen shots
                (executeDecision toLowerCase current chosen browser))
      as (sr & Hsteps & Hstep & _ & _ & _ & Hprogressed & Hfailed).
    right. exists sr. split_and!; [done..|].
    rewrite Hprogressed, Hfailed. unfold verdict.
    destruct (Execution.assertionsFailed _); [done|].
    by rewrite bool_decide_eq_true_2 by (simpl; lia).
Qed.

Lemma stepLoop_adds run limit world fuel : ∀ k vars,
  ∃ added,
    curSteps (flowState (stepLoop toLowerCase hostnameOf run limit world fuel k vars))
    = curSteps vars ++ added
    ∧ (length added ≤ fuel)%nat
    ∧ Forall (λ sr, (k ≤ step sr < k + fuel)%nat
                    ∧ (progressed sr = true → assertionsFailed sr = [])) added.
Proof.
  induction fuel as [|fuel IH]; intros k vars.
  - exists []. simpl. rewrite app_nil_r. split_and!; [done|lia|constructor].
  - cbn [stepLoop].
    pose proof (iteration_adds run limit (atStep world k) k vars) as Hone.
    cbn zeta in Hone.
    destruct (iteration toLowerCase hostnameOf run limit (atStep world k) k vars)
      as [vars'|vars'|vars' e]; cbn [flowState] in *.
    + destruct (IH (S k) vars') as (added & Heq & Hlen & Hall).
      assert (Forall (λ sr, (k ≤ step sr < k + S fuel)%nat
                            ∧ (progressed sr = true → assertionsFailed sr = [])) added)
        as Hall'.
      { eapply list.Forall_impl; [exact Hall|]. intros sr [Hrange Hok]. split; [lia|done]. }
      destruct Hone as [Hsame|(sr & Hsnoc & Hstep & Hok)].
      * exists added. rewrite Heq, Hsame. split_and!; [done|lia|done].
      * exists (sr :: added). rewrite Heq, Hsnoc, <- app_assoc.
        split_and!; [done|simpl; lia|].
        constructor; [split; [lia|done]|done].
    + destruct Hone as [Hsame|(sr & Hsnoc & Hstep & Hok)].
      * exists []. rewrite app_nil_r. split_and!; [done|simpl; lia|constructor].
      * exists [sr]. split_and!; [done|simpl; lia|].
        constructor; [split; [lia|done]|constructor].
    + destruct Hone as [Hsame|(sr & Hsnoc & Hstep & Hok)].
      * exists []. rewrite app_nil_r. split_and!; [done|simpl; lia|constructor].
      * exists [sr]. split_and!; [done|simpl; lia|].
        constructor; [split; [lia|done]|constructor].
Qed.

(** Whatever the world does, a run records no more steps than [maxSteps]
    (40 when unset), numbers them within 1..[maxSteps], and marks none as
    progressed that has a failed assertion. *)
Lemma runSurvey_bounded run world :
  let limit := default 40 (maxSteps run) in
  let final := runSurvey toLowerCase hostnameOf run world in
  (length (steps final) ≤ Z.to_nat limit)%nat
  ∧ Forall (λ sr, 1 ≤ Z.of_nat (step sr) ≤ limit
                  ∧ (progressed sr = true → assertionsFailed sr = [])) (steps final).
Proof.
  cbn zeta. unfold runSurvey. cbn zeta.
  destruct (opening world) as [initialState|e]; [|simpl; split; [lia|constructor]].
  destruct (negb (isValidSurveySurface initialState)).
  { destruct (if captureScreenshots run then _ else _); simpl; split; (lia || constructor). }
  set (vars0 := {| curStatus := Success; curMessage := _; curSteps := []; stagnantSteps := 0 |}).
  destruct (stepLoop_adds run (default 40 (maxSteps run)) world
              (Z.to_nat (default 40 (maxSteps run))) 1 vars0)
    as (added & Heq & Hlen & Hall).
  assert (Forall (λ sr, 1 ≤ Z.of_nat (step sr) ≤ default 40 (maxSteps run)
                        ∧ (progressed sr = true → assertionsFailed sr = [])) added)
    as Hall'.
  { eapply list.Forall_impl; [exact Hall|]. intros sr [Hrange Hok]. split; [lia|done]. }
  destruct (stepLoop toLowerCase hostnameOf run _ world _ 1 vars0)
    as [vars'|vars'|vars' e]; cbn [flowState] in Heq; simpl; rewrite Heq; simpl; done.
Qed.

(** C3. The record of an executed step is marked as progressed exactly
    when the execution reported no failed assertion and either the
    executor reported progress or the fingerprint changed; with a failed
    assertion it is marked as not progressed whatever the executor and
    the fingerprint say; no step recorded by any run is marked as
    progressed while it has a failed assertion.  When the question text is
    unchanged after the action and the text of a requested assertion does
    not occur in the new state, that assertion is among the failed ones
    and the step is not progressed. *)
Theorem step_progress_rule run limit w k vars current chosen shots browser :
  let execution := executeDecision toLowerCase current chosen browser in
  let flow := concludeStep toLowerCase run limit w k vars current chosen shots execution in
  (∀ world,
     Forall (λ sr, progressed sr = true → assertionsFailed sr = [])
       (steps (runSurvey toLowerCase hostnameOf run world)))
  ∧ ∃ sr,
    curSteps (flowState flow) = curSteps vars ++ [sr]
    ∧ state sr = current ∧ decision sr = chosen
    ∧ assertionsFailed sr = Execution.assertionsFailed execution
    ∧ (progressed sr = true ↔
         Execution.assertionsFailed execution = []
         ∧ (Execution.progressed execution = true
            ∨ stateFingerprint (Execution.afterState execution) ≠ stateFingerprint current))
    ∧ (Execution.assertionsFailed execution ≠ [] → progressed sr = false)
    ∧ (∀ assertion,
         questionText (Execution.afterState execution) = questionText current →
         assertion ∈ assertions chosen →
         checkAssertion toLowerCase assertion (Execution.afterState execution) = false →
         assertion ∈ assertionsFailed sr ∧ progressed sr = false).
Proof.
  cbn zeta. split.
  { intros world. destruct (runSurvey_bounded run world) as [_ Hall].
    eapply list.Forall_impl; [exact Hall|]. by intros sr [_ Hok]. }
  destruct (concludeStep_recorded run limit w k vars current chosen shots
              (executeDecision toLowerCase current chosen browser))
    as (sr & Hsteps & _ & Hstate & Hdecision & _ & Hprogressed & Hfailed).
  exists sr.
  set (execution := executeDecision toLowerCase current chosen browser) in *.
  assert (Execution.assertionsFailed execution ≠ [] → progressed sr = false) as Hforced.
  { intros Hne. rewrite Hprogressed. unfold verdict.
    rewrite bool_decide_eq_true_2; [done|].
    destruct (Execution.assertionsFailed _); [done|simpl; lia]. }
  split_and!; try done.
  - rewrite Hprogressed. unfold verdict.
    destruct (Execution.assertionsFailed execution) as [|a failed] eqn:Hlist.
    + rewrite bool_decide_eq_false_2 by (simpl; lia).
      rewrite orb_true_iff, bool_decide_eq_true. split; [by intros Hor|by intros [_ Hor]].
    + rewrite bool_decide_eq_true_2 by (simpl; lia). split; [done|by intros [Hnil _]].
  - intros assertion Hquestion Hrequested Hmissing.
    assert (assertion ∈ Execution.assertionsFailed execution) as Hin.
    { revert Hquestion Hmissing. subst execution. unfold executeDecision.
      destruct (waitForProgress current (polls browser) (settled browser))
        as [reported after].
      destruct (bool_decide_reflect (questionText current ≠ questionText after))
        as [Hchanged|_]; simpl.
      - intros Hsame _. by symmetry in Hsame.
      - intros _ Hmissing. apply elem_of_app. left.
        apply list_elem_of_filter. by split. }
    split; [by rewrite Hfailed|].
    apply Hforced. intros Hnil. rewrite Hnil in Hin. by apply elem_of_nil in Hin.
Qed.

(** What an iteration does on a stagnant step: it records the step as not
    progressed, counts it, and then either stops at the second stagnant
    step in a row or goes on. *)
Lemma iteration_stagnant run limit w k vars :
  completeSurvey run = true →
  stagnatesAt toLowerCase hostnameOf run w k = true →
  ∃ sr,
    step sr = k ∧ progressed sr = false ∧
    let vars1 :=
      {| curStatus := curStatus vars; curMessage := curMessage vars;
         curSteps := curSteps vars ++ [sr];
         stagnantSteps := S (stagnantSteps vars) |} in
    iteration toLowerCase hostnameOf run limit w k vars =
    if bool_decide (2 ≤ S (stagnantSteps vars))%nat then
      if negb (captureScreenshots run) then
        match screenshot w (js "stagnant") with
        | Thrown e => Throw vars1 e
        | Returned _ =>
            Break {| curStatus := Blocked;
                     curMessage := js "Runner cannot progress after repeated attempts.";
                     curSteps :=
                       pushArtifactToLast (curSteps vars1)
                         (screenshotArtifact (artifactsDir run) (js "stagnant") k);
                     stagnantSteps := S (stagnantSteps vars) |}
        end
      else Break (finish vars1 Blocked (js "Runner cannot progress after repeated attempts."))
    else if bool_decide (Z.of_nat k = limit)
    then Continue (finish vars1 Blocked
                     (js "Stopped after reaching maxSteps (" ++ integerToString limit
                      ++ js ")."))
    else Continue vars1.
Proof.
  intros Hcomplete. unfold stagnatesAt, iteration.
  destruct (extracted w) as [current|e]; [|done].
  destruct (executed w) as [browser|e]; [|done].
  set (chosen := decisionFor toLowerCase run w current).
  set (execution := executeDecision toLowerCase current chosen browser).
  rewrite !andb_true_iff, !negb_true_iff, !bool_decide_eq_true.
  intros [[[[[[[Hbefore Hexit] Hcannot] Hsubmit] Hshot] Hfailed] Hprint] Hafter].
  rewrite Hbefore, Hexit, Hcomplete. cbn [negb andb].
  rewrite (bool_decide_eq_false_2 _ Hcannot).
  assert (∃ shots,
            (if captureScreenshots run || needs_screenshot chosen
             then match screenshot w (js "pre-action") with
                  | Returned _ =>
                      Returned [screenshotArtifact (artifactsDir run) (js "pre-action") k]
                  | Thrown e => Thrown e
                  end
             else Returned []) = Returned shots) as [shots ->].
  { destruct (captureScreenshots run || needs_screenshot chosen); [|by eexists].
    destruct (screenshot w (js "pre-action")); [by eexists|done]. }
  unfold concludeStep. cbn zeta. fold execution.
  assert (bool_decide (0 < length (Execution.assertionsFailed execution))%nat = true)
    as ->.
  { apply bool_decide_eq_true_2. destruct (Execution.assertionsFailed execution);
      [done|simpl; lia]. }
  rewrite (bool_decide_eq_false_2 _ Hsubmit), Hafter. cbn [negb andb orb].
  eexists. split_and!; [| |reflexivity]; reflexivity.
Qed.

(** C1 (amended). No run iterates past [maxSteps]: it records at most
    [maxSteps] steps, numbered within 1..[maxSteps].  When [maxSteps] is at
    least 2, the survey is to be completed, the opening phase finds a
    valid surface, and the first two steps are executed with a decision
    other than [cannot_proceed] and [click_submit], show no completion text
    and no exit to another host, fail an assertion and leave the
    fingerprint unchanged, and the screenshots of these steps can be taken,
    then the run ends with status [blocked] ("Runner cannot progress after
    repeated attempts.") after exactly two recorded steps, both marked as
    not progressed. *)
Theorem stagnation_guard run world :
  let limit := default 40 (maxSteps run) in
  let final := runSurvey toLowerCase hostnameOf run world in
  ((length (steps final) ≤ Z.to_nat limit)%nat
   ∧ Forall (λ sr, 1 ≤ Z.of_nat (step sr) ≤ limit) (steps final))
  ∧ (2 ≤ limit →
     completeSurvey run = true →
     surfaceFound world = true →
     stagnatesAt toLowerCase hostnameOf run (atStep world 1) 1 = true →
     stagnatesAt toLowerCase hostnameOf run (atStep world 2) 2 = true →
     (captureScreenshots run = false →
      ∃ done, screenshot (atStep world 2) (js "stagnant") = Returned done) →
     status final = Blocked
     ∧ message final = js "Runner cannot progress after repeated attempts."
     ∧ ∃ first second,
         steps final = [first; second]
         ∧ step first = 1%nat ∧ step second = 2%nat
         ∧ progressed first = false ∧ progressed second = false).
Proof.
  cbn zeta. split.
  - destruct (runSurvey_bounded run world) as [Hlen Hall]. split; [exact Hlen|].
    eapply list.Forall_impl; [exact Hall|]. by intros sr [Hrange _].
  - intros Hlimit Hcomplete Hfound Hfirst Hsecond Hshot.
    unfold runSurvey. cbn zeta. unfold surfaceFound in Hfound.
    destruct (opening world) as [initialState|e]; [|done].
    rewrite Hfound. cbn [negb].
    destruct (Z.to_nat (default 40 (maxSteps run))) as [|[|fuel]] eqn:Hfuel; [lia..|].
    cbn [stepLoop].
    set (vars0 := {| curStatus := Success; curMessage := _; curSteps := [];
                     stagnantSteps := 0 |}).
    destruct (iteration_stagnant run (default 40 (maxSteps run)) (atStep world 1) 1
                vars0 Hcomplete Hfirst) as (first & Hstep1 & Hstuck1 & ->).
    cbn [stagnantSteps vars0].
    rewrite (bool_decide_eq_false_2 (2 ≤ 1)%nat) by lia.
    rewrite (bool_decide_eq_false_2 (Z.of_nat 1 = _)) by lia.
    match goal with
    | |- context [iteration _ _ _ _ _ 2 ?vars] =>
        destruct (iteration_stagnant run (default 40 (maxSteps run)) (atStep world 2) 2
                    vars Hcomplete Hsecond) as (second & Hstep2 & Hstuck2 & ->)
    end.
    cbn [stagnantSteps curSteps curStatus curMessage app].
    rewrite (bool_decide_eq_true_2 (2 ≤ 2)%nat) by lia.
    destruct (captureScreenshots run) eqn:Hcapture; cbn [negb].
    + cbn. split_and!; [done..|]. exists first, second. by split_and!.
    + destruct (Hshot eq_refl) as [done' ->].
      change [first; second] with ([first] ++ [second]).
      rewrite pushArtifactToLast_snoc. cbn.
      split_and!; [done..|]. eexists first, _. by split_and!.
Qed.

End EngineProperties.

(** C1, as stated, fails when the stuck decision is [click_submit]: the
    first step that does not progress ends the run with status [success]. *)
Lemma submit_ends_stagnant_run :
  let final := runSurvey foldAscii httpsHostname (sampleRun None) (stuckWorld submitDecision) in
  Forall (λ sr, assertionsFailed sr ≠ [] ∧ progressed sr = false) (steps final)
  ∧ stateFingerprint
      (Execution.afterState (executeDecision foldAscii stuckState submitDecision stuckBrowser))
    = stateFingerprint stuckState
  ∧ length (steps final) = 1%nat
  ∧ status final = Success
  ∧ status final ≠ Blocked.
Proof.
  cbn zeta. split_and!; [|reflexivity|reflexivity|reflexivity|discriminate].
  vm_compute. repeat constructor. discriminate.
Qed.

Lemma stagnation_guard_witness :
  let final := runSurvey foldAscii httpsHostname (sampleRun None) (stuckWorld selectDecision) in
  status final = Blocked ∧ length (steps final) = 2%nat.
Proof.
  cbn zeta.
  destruct (stagnation_guard foldAscii httpsHostname (sampleRun None)
              (stuckWorld selectDecision)) as [_ Hblocked].
  destruct Hblocked as (Hstatus & _ & first & second & Hsteps & _).
  - vm_compute. discriminate.
  - reflexivity.
  - reflexivity.
  - vm_compute. reflexivity.
  - vm_compute. reflexivity.
  - intros _. exists (). reflexivity.
  - split; [exact Hstatus|]. by rewrite Hsteps.
Defined.

Lemma step_progress_rule_witness :
  ∃ sr,
    curSteps (flowState (concludeStep foldAscii (sampleRun None) 40
                           (atStep (stuckWorld submitDecision) 1) 1
                           {| curStatus := Success; curMessage := []; curSteps := [];
                              stagnantSteps := 0 |}
                           stuckState submitDecision []
                           (executeDecision foldAscii stuckState submitDecision stuckBrowser)))
    = [sr]
    ∧ js "Your answers were sent" ∈ assertionsFailed sr
    ∧ progressed sr = false.
Proof.
  destruct (step_progress_rule foldAscii httpsHostname (sampleRun None) 40
              (atStep (stuckWorld submitDecision) 1) 1
              {| curStatus := Success; curMessage := []; curSteps := [];
                 stagnantSteps := 0 |}
              stuckState submitDecision [] stuckBrowser)
    as (_ & sr & Hsteps & _ & _ & _ & _ & _ & Hscenario).
  exists sr. split; [exact Hsteps|].
  apply Hscenario; [reflexivity| |reflexivity].
  apply list_elem_of_singleton. reflexivity.
Defined.

(** ** Scenarios of the specification *)

(** A question with the radio options "Yes" and "No" is classified as
    [yes_no], and under the strategy [first] the fallback decision selects
    "Yes". *)
Example fallback_selects_yes :
  let current := extractFromContext foldAscii yesNoSurface in
  let chosen := fallbackDecision foldAscii (js "run-1") current StrategyFirst None in
  inputType current = YesNo
  ∧ action chosen = SelectSingleAction
  ∧ selections chosen = [ {| selectionLabel := js "Yes" |} ].
Proof. cbn zeta. split_and!; reflexivity. Qed.

(** A fallback decision never claims more confidence than 0.35. *)
Lemma fallbackDecision_confidence toLowerCase runId current strategy ruleset :
  (confidence (fallbackDecision toLowerCase runId current strategy ruleset) <= 35 # 100)%Q.
Proof.
  unfold fallbackDecision. cbn zeta.
  repeat case_match; cbn [confidence]; unfold Qle; simpl; lia.
Qed.

(** When the decision source fails, the step is decided by the fallback and
    still records the outcome of the action. *)
Example fallback_step_records_outcome :
  let w := {| extracted := Returned stuckState; llmDecision := Thrown (Some (js "timeout"));
              screenshot := λ _, Returned (); executed := Returned stuckBrowser |} in
  let flow := iteration foldAscii httpsHostname (sampleRun None) 40 w 1
                {| curStatus := Success; curMessage := []; curSteps := [];
                   stagnantSteps := 0 |} in
  (λ sr, (action (decision sr), actionSucceeded sr, progressed sr))
    <$> curSteps (flowState flow)
  = [(SelectSingleAction, false, false)].
Proof. reflexivity. Qed.

(** * Further properties of the engine *)

(** ** Strategy engine *)

(** [pickByMode] never reads outside the labels: on an empty list it returns
    the empty string, otherwise one of the labels, the first one under
    [first] and the last one under [last]. *)
Theorem pickByMode_in_range labels m seed :
  (labels = [] → pickByMode labels m seed = [])
  ∧ (labels ≠ [] →
     pickByMode labels m seed ∈ labels
     ∧ (m = PickFirst → head labels = Some (pickByMode labels m seed))
     ∧ (m = PickLast → list.last labels = Some (pickByMode labels m seed))).
Proof.
  split; [by intros ->|]. intros Hne. split; [by apply pickByMode_elem|].
  unfold pickByMode.
  destruct (decide (length labels = 0%nat)) as [Hlen|_].
  { apply length_zero_iff_nil in Hlen. contradiction. }
  split; intros ->.
  - destruct labels; [done|reflexivity].
  - rewrite last_lookup.
    replace (pred (length labels)) with (length labels - 1)%nat by lia.
    destruct (lookup_lt_is_Some_2 labels (length labels - 1)%nat) as [l Hl].
    { destruct labels; [done|simpl; lia]. }
    by rewrite Hl.
Qed.

Lemma pickByMode_in_range_witness :
  pickByMode [js "a"; js "b"; js "c"] PickRandom (js "run-1:Pick") ∈ [js "a"; js "b"; js "c"]
  ∧ list.last [js "a"; js "b"; js "c"] = Some (pickByMode [js "a"; js "b"; js "c"] PickLast []).
Proof.
  destruct (pickByMode_in_range [js "a"; js "b"; js "c"] PickRandom (js "run-1:Pick"))
    as [_ Hrandom].
  destruct (pickByMode_in_range [js "a"; js "b"; js "c"] PickLast []) as [_ Hlast].
  split.
  - apply Hrandom. discriminate.
  - apply Hlast; [discriminate|reflexivity].
Defined.

Lemma deterministicSelection_submseteq s strategy ruleset runId :
  deterministicSelection s strategy ruleset runId ⊆+ label <$> options s.
Proof.
  destruct (decide (options s = [])) as [Hnil|Hopts].
  { unfold deterministicSelection. rewrite Hnil. simpl. apply submseteq_nil_l. }
  assert (∀ m seed,
            (if truthy (pickByMode (label <$> options s) m seed)
             then [pickByMode (label <$> options s) m seed] else [])
            ⊆+ label <$> options s) as Hpick.
  { intros m seed. destruct (truthy _); [|apply submseteq_nil_l].
    apply singleton_submseteq_l, pickByMode_elem. by rewrite labels_nil. }
  destruct (decide (strategy = StrategyRuleset)) as [->|Hstrategy].
  - destruct (decide (inputType s = MultiSelect)) as [Htype|Htype].
    + rewrite deterministicSelection_ruleset_multi by done.
      destruct (multiSelectMode ruleset).
      * apply sublist_submseteq, sublist_take.
      * done.
      * destruct (randomLoop_picks runId s (effectiveN ruleset) (label <$> options s) [])
           as (picked & -> & Hsub & _). done.
    + unfold deterministicSelection. cbn zeta.
      destruct (decide (length (label <$> options s) = 0%nat)); [apply submseteq_nil_l|].
      destruct (decide (StrategyRuleset ≠ StrategyRuleset)); [done|].
      destruct (decide (inputType s = MultiSelect)); [done|].
      rewrite truthy_filter. apply Hpick.
  - rewrite deterministicSelection_positional by done. apply Hpick.
Qed.

(** Whatever the strategy, ruleset and input type, the labels
    [deterministicSelection] returns are option labels of the state, each
    returned no more often than it occurs among the options; a state without
    options gives no selection. *)
Theorem deterministicSelection_from_options s strategy ruleset runId :
  deterministicSelection s strategy ruleset runId ⊆+ label <$> options s
  ∧ (options s = [] → deterministicSelection s strategy ruleset runId = []).
Proof.
  split; [apply deterministicSelection_submseteq|].
  intros Hnil. unfold deterministicSelection. by rewrite Hnil.
Qed.

Lemma deterministicSelection_from_options_witness :
  deterministicSelection emptySurface StrategyRandom None (js "run-1") = [].
Proof.
  destruct (deterministicSelection_from_options emptySurface StrategyRandom None (js "run-1"))
    as [_ Hnone].
  apply Hnone. reflexivity.
Defined.

(** Under the ruleset strategy an unset part of the ruleset falls back to
    its default: a multi-select question without [multiSelect] gets its
    first two labels, and any other question is answered exactly as under
    the plain strategy named by [singleSelect] ([first] when unset). *)
Theorem ruleset_defaults s ruleset other runId :
  (inputType s = MultiSelect → ruleset ≫= multiSelect = None →
   deterministicSelection s StrategyRuleset ruleset runId = take 2 (label <$> options s))
  ∧ (inputType s ≠ MultiSelect →
     ∀ m strategy,
       default PickFirst (ruleset ≫= singleSelect) = m →
       (m, strategy) ∈ [(PickFirst, StrategyFirst); (PickLast, StrategyLast);
                        (PickRandom, StrategyRandom)] →
       deterministicSelection s StrategyRuleset ruleset runId
       = deterministicSelection s strategy other runId).
Proof.
  split.
  - intros Htype Hunset. rewrite deterministicSelection_ruleset_multi by done.
    unfold multiSelectMode, effectiveN. by rewrite Hunset.
  - intros Htype m strategy Hm Hin.
    unfold deterministicSelection. cbn zeta.
    destruct (decide (length (label <$> options s) = 0%nat)); [done|].
    destruct (decide (StrategyRuleset ≠ StrategyRuleset)); [done|].
    destruct (decide (inputType s = MultiSelect)); [done|].
    rewrite Hm.
    rewrite !elem_of_cons, elem_of_nil in Hin.
    destruct Hin as [Heq|[Heq|[Heq|[]]]]; injection Heq as -> ->;
      (destruct (decide (_ ≠ StrategyRuleset)) as [_|Hsame];
       [reflexivity|exfalso; apply Hsame; discriminate]).
Qed.

Lemma ruleset_defaults_witness :
  deterministicSelection (sampleState MultiSelect "Pick" ["a"; "b"; "c"]%string)
    StrategyRuleset None (js "run-1") = [js "a"; js "b"]
  ∧ deterministicSelection (sampleState SingleSelect "Pick" ["a"; "b"; "c"]%string)
      StrategyRuleset None (js "run-1")
    = deterministicSelection (sampleState SingleSelect "Pick" ["a"; "b"; "c"]%string)
        StrategyFirst emailRuleset (js "run-1").
Proof.
  split.
  - destruct (ruleset_defaults (sampleState MultiSelect "Pick" ["a"; "b"; "c"]%string)
                None None (js "run-1")) as [Hmulti _].
    rewrite Hmulti by reflexivity. reflexivity.
  - destruct (ruleset_defaults (sampleState SingleSelect "Pick" ["a"; "b"; "c"]%string)
                None emailRuleset (js "run-1")) as [_ Hsingle].
    apply (Hsingle ltac:(discriminate) PickFirst StrategyFirst); [reflexivity|].
    apply elem_of_cons. by left.
Defined.

(** When the count of [random_n] is at least the number of options and no
    option label is empty, every option is selected: the result is a
    rearrangement of the option labels. *)
Theorem random_n_exhausts s ruleset runId :
  inputType s = MultiSelect →
  multiSelectMode ruleset = RandomN →
  Forall (λ l, l ≠ []) (label <$> options s) →
  (length (options s) ≤ Z.to_nat (effectiveN ruleset))%nat →
  deterministicSelection s StrategyRuleset ruleset runId ≡ₚ label <$> options s.
Proof.
  intros Htype Hmode Hne Hcount.
  rewrite deterministicSelection_ruleset_multi, Hmode by done.
  destruct (randomLoop_picks runId s (effectiveN ruleset) (label <$> options s) [])
    as (picked & -> & Hsub & _ & Hfull).
  simpl in *. rewrite Z.sub_0_r, length_fmap in Hfull.
  apply submseteq_length_Permutation; [done|].
  rewrite Hfull, length_fmap by done. lia.
Qed.

Lemma random_n_exhausts_witness :
  deterministicSelection (sampleState MultiSelect "Pick" ["a"; "b"; "c"]%string)
    StrategyRuleset (multiRuleset RandomN (Some 5%Z)) (js "run-1")
  ≡ₚ [js "a"; js "b"; js "c"].
Proof.
  apply (random_n_exhausts (sampleState MultiSelect "Pick" ["a"; "b"; "c"]%string)
           (multiRuleset RandomN (Some 5%Z)) (js "run-1")).
  - reflexivity.
  - reflexivity.
  - repeat constructor; discriminate.
  - vm_compute. lia.
Defined.

(** ** Extractor *)

Lemma runsFrom_word w : ∀ acc rest,
  Forall (λ c, isSpace c = false) w →
  runsFrom acc (w ++ rest) = runsFrom (rev w ++ acc) rest.
Proof.
  induction w as [|c w IH]; intros acc rest Hw; [done|].
  apply list.Forall_cons in Hw as [Hc Hw].
  cbn [app runsFrom]. rewrite Hc, IH by done.
  simpl. by rewrite <- app_assoc.
Qed.

(** The runs [runsFrom] returns are not empty and hold no space. *)
Lemma runsFrom_runs s : ∀ acc,
  Forall (λ c, isSpace c = false) acc →
  Forall (λ w, w ≠ [] ∧ Forall (λ c, isSpace c = false) w) (runsFrom acc s).
Proof.
  assert (∀ acc : jsstring, acc ≠ [] → Forall (λ c, isSpace c = false) acc →
            rev acc ≠ [] ∧ Forall (λ c, isSpace c = false) (rev acc)) as Hrev.
  { intros acc Hne Hacc. split.
    - intros Hnil. apply (f_equal (@rev Z)) in Hnil. rewrite rev_involutive in Hnil. done.
    - by apply Forall_rev. }
  induction s as [|c s IH]; intros acc Hacc; cbn [runsFrom].
  - destruct acc as [|a acc]; [constructor|].
    constructor; [by apply Hrev|constructor].
  - destruct (isSpace c) eqn:Hc.
    + destruct acc as [|a acc]; [by apply IH|].
      constructor; [by apply Hrev|by apply IH].
    + apply IH. by constructor.
Qed.

Lemma runsFrom_join runs :
  Forall (λ w, w ≠ [] ∧ Forall (λ c, isSpace c = false) w) runs →
  runsFrom [] (join (js " ") runs) = runs.
Proof.
  induction runs as [|w runs IH]; intros Hruns; [done|].
  apply list.Forall_cons in Hruns as [[Hne Hw] Hruns].
  destruct runs as [|w' runs].
  - cbn [join]. rewrite <- (app_nil_r w) at 1. rewrite runsFrom_word by done.
    rewrite app_nil_r. cbn [runsFrom].
    destruct (rev w) eqn:Hrev.
    + apply (f_equal (@rev Z)) in Hrev. rewrite rev_involutive in Hrev. done.
    + by rewrite <- Hrev, rev_involutive.
  - change (join (js " ") (w :: w' :: runs))
      with (w ++ 32 :: join (js " ") (w' :: runs)).
    rewrite runsFrom_word by done. rewrite app_nil_r. cbn [runsFrom].
    change (isSpace 32) with true. cbn match.
    destruct (rev w) eqn:Hrev.
    + apply (f_equal (@rev Z)) in Hrev. rewrite rev_involutive in Hrev. done.
    + rewrite <- Hrev, rev_involutive. f_equal. by apply IH.
Qed.

Lemma runsFrom_nil s : ∀ acc,
  runsFrom acc s = [] ↔ acc = [] ∧ Forall (λ c, isSpace c = true) s.
Proof.
  induction s as [|c s IH]; intros acc; cbn [runsFrom].
  - destruct acc; split; try done. by intros [? _].
  - destruct (isSpace c) eqn:Hc.
    + destruct acc as [|a acc].
      * rewrite IH. split; intros [_ Hs]; (split; [done|]); [by constructor|].
        by apply list.Forall_cons in Hs as [_ Hs].
      * split; [done|by intros [? _]].
    + rewrite IH. split; [by intros [? _]|].
      intros [_ Hs]. apply list.Forall_cons in Hs as [Hc' _]. congruence.
Qed.

Lemma clean_clean (value : option jsstring) : clean (Some (clean value)) = clean value.
Proof.
  unfold clean.
  change (default [] (Some (join (js " ") (runsFrom [] (default [] value)))))
    with (join (js " ") (runsFrom [] (default [] value))).
  by rewrite runsFrom_join by (apply runsFrom_runs; constructor).
Qed.

(** [clean] normalises: cleaning a cleaned value changes nothing, a missing
    value is cleaned to the empty string, and a value is cleaned to the
    empty string exactly when it holds nothing but white space. *)
Theorem clean_idempotent (value : option jsstring) :
  clean (Some (clean value)) = clean value
  ∧ clean None = []
  ∧ (clean value = [] ↔ Forall (λ c, isSpace c = true) (default [] value)).
Proof.
  split_and!; [apply clean_clean|reflexivity|]. unfold clean.
  pose proof (runsFrom_runs (default [] value) [] ltac:(constructor)) as Hall.
  pose proof (runsFrom_nil (default [] value) []) as Hnil.
  destruct (runsFrom [] (default [] value)) as [|w [|w' runs]].
  - split; [intros _; by apply Hnil|done].
  - apply list.Forall_cons in Hall as [[Hne _] _].
    split; [done|]. intros Hs. discriminate (proj2 Hnil (conj eq_refl Hs)).
  - apply list.Forall_cons in Hall as [[Hne _] _].
    split; [cbn [join]; by destruct w|].
    intros Hs. discriminate (proj2 Hnil (conj eq_refl Hs)).
Qed.

Lemma clean_idempotent_witness :
  clean (Some (js "  first   name ")) = js "first name"
  ∧ clean (Some (js " 	 ")) = [].
Proof.
  destruct (clean_idempotent (Some (js " 	 "))) as (_ & _ & Hblank).
  split; [reflexivity|]. apply Hblank. repeat constructor.
Defined.

Lemma head_filter_Some {A} (P : A → Prop) `{∀ x, base.Decision (P x)} (l : list A) x :
  head (filter P l) = Some x →
  P x ∧ ∃ before after, l = before ++ x :: after ∧ Forall (λ y, ¬ P y) before.
Proof.
  induction l as [|y l IH]; [done|]. rewrite filter_cons.
  destruct (decide (P y)) as [Hy|Hy].
  - intros [= ->]. split; [done|]. exists [], l. split; [done|constructor].
  - intros Hhead. destruct (IH Hhead) as (Hx & before & after & -> & Hbefore).
    split; [done|]. exists (y :: before), after. split; [done|by constructor].
Qed.

Lemma head_filter_None {A} (P : A → Prop) `{∀ x, base.Decision (P x)} (l : list A) :
  head (filter P l) = None → Forall (λ y, ¬ P y) l.
Proof.
  induction l as [|y l IH]; [constructor|]. rewrite filter_cons.
  destruct (decide (P y)) as [Hy|Hy]; [done|]. intros Hhead. constructor; [done|by apply IH].
Qed.

Section SnapshotProperties.

Variable toLowerCase : jsstring → jsstring.

(** [extractQuestionState] returns the snapshot of the page itself when that
    is valid, otherwise the snapshot of the first frame, in order, that
    extracts to a valid one, and the (invalid) snapshot of the page when
    there is none; frames whose extraction throws are passed over.  So the
    result is valid exactly when the page or one of the readable frames
    gives a valid snapshot. *)
Theorem extractQuestionState_first_valid context frames :
  let extract := extractFromContext toLowerCase in
  let result := extractQuestionState toLowerCase context frames in
  (isValidSurveySurface (extract context) = true → result = extract context)
  ∧ (isValidSurveySurface (extract context) = false →
     (∀ before frame after,
        omap id frames = before ++ frame :: after →
        Forall (λ f, isValidSurveySurface (extract f) = false) before →
        isValidSurveySurface (extract frame) = true →
        result = extract frame)
     ∧ (Forall (λ f, isValidSurveySurface (extract f) = false) (omap id frames) →
        result = extract context))
  ∧ (isValidSurveySurface result = true ↔
       ∃ surface, surface ∈ context :: omap id frames
                  ∧ isValidSurveySurface (extract surface) = true).
Proof.
  cbn zeta. unfold extractQuestionState. cbn zeta.
  set (extract := extractFromContext toLowerCase).
  assert (∀ l, Forall (λ f, isValidSurveySurface (extract f) = false) l →
               filter (λ s, isValidSurveySurface s = true) (extract <$> l) = []) as Hnone.
  { intros l Hl. induction Hl as [|f l Hf _ IH]; [done|].
    rewrite fmap_cons, filter_cons. destruct (decide _); [congruence|done]. }
  destruct (isValidSurveySurface (extract context)) eqn:Hcontext.
  - split_and!; [done|done|]. split; [|done].
    intros _. exists context. split; [apply elem_of_cons; by left|done].
  - split_and!; [done| |].
    + split.
      * intros before frame after Hframes Hbefore Hframe.
        rewrite Hframes, fmap_app, list.filter_app, (Hnone _ Hbefore), fmap_cons, filter_cons.
        by destruct (decide _).
      * intros Hall. by rewrite (Hnone _ Hall).
    + destruct (head (filter (λ s, isValidSurveySurface s = true)
                        (extract <$> omap id frames))) as [state|] eqn:Hfound;
        unfold default, from_option, id.
      * apply head_filter_Some in Hfound as (Hvalid & before & after & Heq & _).
        rewrite Hvalid. split; [|done]. intros _.
        assert (state ∈ extract <$> omap id frames) as Hin
          by (rewrite Heq; apply elem_of_app; right; apply elem_of_cons; by left).
        apply list_elem_of_fmap in Hin as (surface & -> & Hin).
        exists surface. split; [apply elem_of_cons; by right|done].
      * apply head_filter_None in Hfound. rewrite Hcontext. split; [done|].
        intros (surface & [->|Hin]%elem_of_cons & Hvalid); [congruence|].
        rewrite list.Forall_forall in Hfound.
        destruct (Hfound (extract surface)); [|done].
        apply list_elem_of_fmap. by exists surface.
Qed.

End SnapshotProperties.

Lemma extractQuestionState_first_valid_witness :
  let blank := {| headings := []; legends := []; buttons := []; radios := [];
                  checkboxes := []; textboxes := []; progressbars := [];
                  bodyProgressText := []; location := js "about:blank" |} in
  extractQuestionState foldAscii blank [None; Some blank; Some yesNoSurface; Some mixedSurface]
  = extractFromContext foldAscii yesNoSurface.
Proof.
  cbn zeta.
  set (blank := {| headings := []; legends := []; buttons := []; radios := [];
                   checkboxes := []; textboxes := []; progressbars := [];
                   bodyProgressText := []; location := js "about:blank" |}).
  destruct (extractQuestionState_first_valid foldAscii blank
              [None; Some blank; Some yesNoSurface; Some mixedSurface]) as (_ & Hframes & _).
  destruct (Hframes eq_refl) as [Hfirst _].
  apply (Hfirst [blank] yesNoSurface [mixedSurface]); [reflexivity| |reflexivity].
  repeat constructor.
Defined.

Lemma dedupe_spec labels : ∀ seen,
  NoDup (dedupe seen labels)
  ∧ ∀ l, l ∈ dedupe seen labels ↔ l ∈ labels ∧ l ∉ seen.
Proof.
  induction labels as [|x labels IH]; intros seen; cbn [dedupe].
  - split; [apply NoDup_nil_2|]. intros l. rewrite elem_of_nil. by split; [|intros [? _]].
  - destruct (bool_decide_reflect (x ∈ seen)) as [Hseen|Hnew].
    + destruct (IH seen) as [Hnodup Hiff]. split; [done|].
      intros l. rewrite Hiff, elem_of_cons. split; [by intros [? ?]; split; [right|]|].
      intros [[->|Hin] Hnot]; [done|by split].
    + destruct (IH (x :: seen)) as [Hnodup Hiff]. split.
      * apply list.NoDup_cons. split; [|done]. rewrite Hiff.
        intros [_ Hnot]. apply Hnot. apply elem_of_cons. by left.
      * intros l. rewrite !elem_of_cons, Hiff, elem_of_cons.
        split.
        -- intros [->|[Hin Hnot]]; [by split; [left|]|].
           split; [by right|]. intros Hl. apply Hnot. by right.
        -- intros [[->|Hin] Hnot]; [by left|].
           destruct (decide (l = x)) as [->|Hne]; [by left|].
           right. split; [done|]. by intros [?|?].
Qed.

Lemma readFilledText_clean boxes :
  clean (Some (readFilledText boxes)) = readFilledText boxes
  ∧ (filter (λ box, shown box = true) boxes = [] → readFilledText boxes = []).
Proof.
  induction boxes as [|box boxes [IHclean IHnone]]; [done|]. cbn [readFilledText].
  rewrite filter_cons. destruct (shown box); cbn [andb].
  - split; [|by destruct (decide _)].
    destruct (truthy (clean (Some (value box)))); [apply clean_clean|done].
  - destruct (decide _); [done|]. by split.
Qed.

Lemma firstProgressbar_truthy bars l : firstProgressbar bars = Some l → l ≠ [].
Proof.
  induction bars as [|bar bars IH]; [done|]. cbn [firstProgressbar].
  destruct (visible bar && truthy (name bar)) eqn:Hbar; [|done].
  intros [= <-]. apply andb_true_iff in Hbar as [_ Hname]. by apply truthy_ne.
Qed.

Lemma visibleLabelsForRole_spec items l :
  l ∈ visibleLabelsForRole items ↔
  ∃ item, item ∈ items ∧ visible item = true ∧ name item = l ∧ l ≠ [].
Proof.
  unfold visibleLabelsForRole. rewrite list_elem_of_fmap. split.
  - intros (item & -> & [[Hvisible Hname] Hin]%list_elem_of_filter).
    exists item. split_and!; [done..|by apply truthy_ne].
  - intros (item & Hin & Hvisible & <- & Hne). exists item. split; [done|].
    apply list_elem_of_filter. split; [|done]. split; [done|].
    by destruct (name item).
Qed.

Lemma mapSet_absent (m : OptionsMap) key v : key ∉ m.*1 → mapSet m key v = m ++ [(key, v)].
Proof.
  induction m as [|[k x] m IH]; [done|]. rewrite fmap_cons, not_elem_of_cons.
  intros [Hne Hnot]. cbn [mapSet fst] in *.
  destruct (decide (k = key)); [congruence|]. by rewrite IH.
Qed.




Lemma readOptionsFromRole_keys items : ∀ (m : OptionsMap) key,
  key ∈ (readOptionsFromRole items m).*1 →
  key ∈ m.*1 ∨ ∃ item, item ∈ items ∧ visible item = true ∧ name item = key.
Proof.
  unfold readOptionsFromRole. induction items as [|item items IH]; intros m key; [by left|].
  cbn [foldl]. intros Hin. apply IH in Hin as [Hin|(item' & Hin & ?)].
  - destruct (visible item) eqn:Hvisible; cbn [andb] in Hin; [|by left].
    destruct (truthy (name item)); [|by left].
    rewrite mapSet_keys in Hin. destruct (bool_decide _); [by left|].
    apply elem_of_app in Hin as [Hin|Hin%list_elem_of_singleton]; [by left|].
    right. exists item. split_and!; [apply elem_of_cons; by left|done|done].
  - right. exists item'. split; [apply elem_of_cons; by right|done].
Qed.

Lemma readOptionButtons_keys items : ∀ (m : OptionsMap) key,
  key ∈ (readOptionButtons items m).*1 →
  key ∈ m.*1 ∨ isNavigationLabel key = false.
Proof.
  unfold readOptionButtons. induction items as [|item items IH]; intros m key; [by left|].
  cbn [foldl]. intros Hin. apply IH in Hin as [Hin|Hin]; [|by right].
  destruct (visible item && truthy (name item)); cbn [andb] in Hin; [|by left].
  destruct (isNavigationLabel (name item)) eqn:Hnav; cbn [negb] in Hin; [by left|].
  destruct (mapHas m (name item)); [by left|].
  rewrite mapSet_keys in Hin. destruct (bool_decide _); [by left|].
  apply elem_of_app in Hin as [Hin|Hin%list_elem_of_singleton]; [by left|].
  right. by subst.
Qed.

Lemma extractQuestionState_origin toLowerCase context frames :
  ∃ surface, extractQuestionState toLowerCase context frames
             = extractFromContext toLowerCase surface.
Proof.
  unfold extractQuestionState. cbn zeta.
  destruct (isValidSurveySurface _); [by exists context|].
  destruct (head _) as [state|] eqn:Hhead; [|by exists context].
  apply head_filter_Some in Hhead as (_ & before & after & Heq & _).
  assert (state ∈ extractFromContext toLowerCase <$> omap id frames) as Hin
    by (rewrite Heq; apply elem_of_app; right; apply elem_of_cons; by left).
  apply list_elem_of_fmap in Hin as (surface & -> & _). by exists surface.
Qed.

(** In every snapshot [extractQuestionState] returns, the option labels are
    pairwise distinct and not empty, the options are counted in
    [visibleInputCount], and so a snapshot with an option is a valid survey
    surface. *)
Theorem extracted_options_distinct toLowerCase context frames :
  let snapshot := extractQuestionState toLowerCase context frames in
  NoDup (label <$> options snapshot)
  ∧ Forall (λ l, l ≠ []) (label <$> options snapshot)
  ∧ (length (options snapshot) ≤ visibleInputCount snapshot)%nat
  ∧ (options snapshot ≠ [] → isValidSurveySurface snapshot = true).
Proof.
  cbn zeta. destruct (extractQuestionState_origin toLowerCase context frames) as [surface ->].
  destruct (extractFromContext_labels toLowerCase surface) as [Hnodup Hne].
  assert (length (options (extractFromContext toLowerCase surface))
          ≤ visibleInputCount (extractFromContext toLowerCase surface))%nat as Hcount.
  { unfold extractFromContext. cbn zeta. cbn [options visibleInputCount].
    rewrite length_fmap. apply Nat.le_add_l. }
  split_and!; [done..|].
  intros Hopts. unfold isValidSurveySurface.
  destruct (decide _) as [|Hzero]; [done|].
  destruct (options (extractFromContext toLowerCase surface)) eqn:Hlist; [done|].
  cbn [length] in Hcount. lia.
Qed.

Lemma extracted_options_distinct_witness :
  isValidSurveySurface (extractQuestionState foldAscii mixedSurface []) = true.
Proof.
  destruct (extracted_options_distinct foldAscii mixedSurface []) as (_ & _ & _ & Hvalid).
  apply Hvalid. vm_compute. discriminate.
Defined.

(** The navigation buttons of a snapshot are pairwise distinct labels of
    visible buttons that match the navigation vocabulary, and a label of
    that vocabulary is never turned into an option by a button: an option
    with such a label was read from a radio button or a checkbox. *)
Theorem navigation_and_options_apart toLowerCase target :
  let snapshot := extractFromContext toLowerCase target in
  NoDup (navigationButtons snapshot)
  ∧ (∀ l, l ∈ navigationButtons snapshot ↔
          isNavigationLabel l = true
          ∧ ∃ button, button ∈ buttons target ∧ visible button = true
                      ∧ name button = l ∧ l ≠ [])
  ∧ (∀ l, l ∈ label <$> options snapshot → isNavigationLabel l = true →
          ∃ item, item ∈ radios target ++ checkboxes target
                  ∧ visible item = true ∧ name item = l).
Proof.
  cbn zeta. unfold extractFromContext. cbn zeta. cbn [navigationButtons options].
  destruct (dedupe_spec (filter (λ l, isNavigationLabel l = true)
                           (visibleLabelsForRole (buttons target))) []) as [Hnodup Hiff].
  split_and!; [done| |].
  - intros l. rewrite Hiff, list_elem_of_filter, visibleLabelsForRole_spec, elem_of_nil.
    split; [intros [[Hnav Hbutton] _]; by split|].
    intros [Hnav Hbutton]. split; [by split|by intros ?].
  - intros l Hin Hnav.
    rewrite (wellKeyed_labels _ (extractFromContext_wellKeyed target)) in Hin.
    apply readOptionButtons_keys in Hin as [Hin|Hno]; [|congruence].
    apply readOptionsFromRole_keys in Hin as [Hin|(item & Hitem & Hvisible & Hname)].
    + apply readOptionsFromRole_keys in Hin as [Hin|(item & Hitem & Hvisible & Hname)].
      * by apply elem_of_nil in Hin.
      * exists item. split; [apply elem_of_app; by left|done].
    + exists item. split; [apply elem_of_app; by right|done].
Qed.

Lemma navigation_and_options_apart_witness :
  js "Next" ∈ navigationButtons (extractFromContext foldAscii yesNoSurface).
Proof.
  destruct (navigation_and_options_apart foldAscii yesNoSurface) as (_ & Hnav & _).
  apply Hnav. split; [reflexivity|].
  exists {| visible := true; name := js "Next"; marked := false |}.
  split_and!; [apply elem_of_cons; by left|reflexivity|reflexivity|discriminate].
Defined.

(** An invalid snapshot is an empty one: the surface showed no text input,
    no radio button, no checkbox, no option and no navigation button, and
    the snapshot has no options, no filled value and the input type
    [unknown]. *)
Theorem invalid_snapshot_is_empty toLowerCase target :
  let snapshot := extractFromContext toLowerCase target in
  isValidSurveySurface snapshot = false →
  options snapshot = [] ∧ navigationButtons snapshot = []
  ∧ inputType snapshot = Unknown ∧ filledValue snapshot = []
  ∧ visibleInputCount snapshot = 0%nat
  ∧ radios target = [] ∧ checkboxes target = []
  ∧ filter (λ box, shown box = true) (textboxes target) = [].
Proof.
  cbn zeta. unfold isValidSurveySurface.
  destruct (decide _) as [|Hzero]; [done|]. intros Hnav%bool_decide_eq_false.
  assert (visibleInputCount (extractFromContext toLowerCase target) = 0%nat) as Hcount by lia.
  assert (navigationButtons (extractFromContext toLowerCase target) = []) as Hnone
    by (destruct (navigationButtons _); [done|simpl in Hnav; lia]).
  clear Hzero Hnav. revert Hcount Hnone.
  unfold extractFromContext. cbn zeta.
  cbn [visibleInputCount navigationButtons options inputType filledValue].
  set (optionsMap := readOptionButtons _ _).
  intros Hcount Hnone.
  assert (filter (λ box, shown box = true) (textboxes target) = []) as Htext
    by (apply length_zero_iff_nil; lia).
  assert (radios target = []) as Hradios by (apply length_zero_iff_nil; lia).
  assert (checkboxes target = []) as Hboxes by (apply length_zero_iff_nil; lia).
  assert (optionsMap = []) as Hmap by (apply length_zero_iff_nil; lia).
  rewrite Hmap, Htext, Hradios, Hboxes.
  split_and!; try done.
  by apply readFilledText_clean.
Qed.

Lemma invalid_snapshot_is_empty_witness :
  options (extractFromContext foldAscii
             {| headings := [radio "Loading"]; legends := []; buttons := []; radios := [];
                checkboxes := []; textboxes := [ {| shown := false; value := js "x" |} ];
                progressbars := []; bodyProgressText := []; location := js "about:blank" |})
  = [].
Proof.
  destruct (invalid_snapshot_is_empty foldAscii
              {| headings := [radio "Loading"]; legends := []; buttons := []; radios := [];
                 checkboxes := []; textboxes := [ {| shown := false; value := js "x" |} ];
                 progressbars := []; bodyProgressText := [];
                 location := js "about:blank" |} eq_refl) as [Hoptions _].
  exact Hoptions.
Defined.

(** The free-text fields of a snapshot are normalised: there are at most two
    support texts, the progress indicator is never the empty string, and
    the filled value is already clean (no outer or repeated white space). *)
Theorem snapshot_normalised toLowerCase target :
  let snapshot := extractFromContext toLowerCase target in
  (length (supportText snapshot) ≤ 2)%nat
  ∧ progress snapshot ≠ Some []
  ∧ clean (Some (filledValue snapshot)) = filledValue snapshot.
Proof.
  cbn zeta. unfold extractFromContext. cbn zeta.
  cbn [supportText progress filledValue]. split_and!.
  - rewrite length_take. lia.
  - unfold detectProgress.
    destruct (firstProgressbar (progressbars target)) as [l|] eqn:Hbar.
    + intros [= ->]. by apply firstProgressbar_truthy in Hbar.
    + destruct (clean (Some (bodyProgressText target))); [done|]. simpl. discriminate.
  - apply readFilledText_clean.
Qed.

Lemma snapshot_normalised_witness :
  progress (extractFromContext foldAscii mixedSurface) = Some (js "2 of 5")
  ∧ progress (extractFromContext foldAscii yesNoSurface) ≠ Some [].
Proof.
  split; [reflexivity|].
  by destruct (snapshot_normalised foldAscii yesNoSurface) as (_ & Hprogress & _).
Defined.

(** A button read as an option never touches what radio buttons and
    checkboxes put into the map: the entries that exist stay as they are, in
    place, and the button options follow them. *)
Theorem readOptionButtons_keeps_existing items (existing : OptionsMap) :
  existing `prefix_of` readOptionButtons items existing.
Proof.
  revert existing. unfold readOptionButtons.
  induction items as [|item items IH]; intros existing; [done|].
  cbn [foldl]. etrans; [|apply IH].
  destruct (visible item && truthy (name item) && negb (isNavigationLabel (name item)));
    [|done].
  unfold mapHas. destruct (bool_decide_reflect (name item ∈ existing.*1)) as [|Hnew]; [done|].
  rewrite mapSet_absent by done. by apply prefix_app_r.
Qed.

Lemma readOptionButtons_keeps_existing_witness :
  [(js "A", {| label := js "A"; selected := true |})]
    `prefix_of` readOptionButtons [ {| visible := true; name := js "A"; marked := false |};
                                    {| visible := true; name := js "B"; marked := true |} ]
                  [(js "A", {| label := js "A"; selected := true |})].
Proof.
  apply (readOptionButtons_keeps_existing
           [ {| visible := true; name := js "A"; marked := false |};
             {| visible := true; name := js "B"; marked := true |} ]
           [(js "A", {| label := js "A"; selected := true |})]).
Defined.



(** ** Executor *)

(** [waitForProgress] stops at the first polled state that is a valid
    surface with another fingerprint, and otherwise returns the state read
    after the timeout. *)
Lemma waitForProgress_outcome before ticks final :
  let stale st := stateFingerprint st = stateFingerprint before
                  ∨ isValidSurveySurface st = false in
  let outcome := waitForProgress before ticks final in
  (outcome.1 = true →
   isValidSurveySurface outcome.2 = true
   ∧ stateFingerprint outcome.2 ≠ stateFingerprint before
   ∧ ∃ earlier later, ticks = earlier ++ outcome.2 :: later ∧ Forall stale earlier)
  ∧ (outcome.1 = false → outcome.2 = final ∧ Forall stale ticks).
Proof.
  cbn zeta. induction ticks as [|st ticks [IHtrue IHfalse]]; cbn [waitForProgress].
  - split; [done|]. intros _. split; [done|constructor].
  - destruct (bool_decide_reflect (stateFingerprint st ≠ stateFingerprint before))
      as [Hmoved|Hsame]; cbn [andb].
    + destruct (isValidSurveySurface st) eqn:Hvalid.
      * split; [|done]. intros _. cbn [fst snd]. split_and!; [done..|].
        exists [], ticks. split; [done|constructor].
      * split.
        -- intros Htrue. destruct (IHtrue Htrue) as (? & ? & earlier & later & Hticks & ?).
           split_and!; [done..|]. exists (st :: earlier), later.
           split; [cbn [app]; f_equal; exact Hticks|]. constructor; [by right|done].
        -- intros Hfalse. destruct (IHfalse Hfalse) as [? ?].
           split; [done|]. constructor; [by right|done].
    + assert (stateFingerprint st = stateFingerprint before) as Heq
        by (destruct (decide (stateFingerprint st = stateFingerprint before)) as [|Hne];
            [done|destruct (Hsame Hne)]).
      split.
      * intros Htrue. destruct (IHtrue Htrue) as (? & ? & earlier & later & Hticks & ?).
        split_and!; [done..|]. exists (st :: earlier), later.
        split; [cbn [app]; f_equal; exact Hticks|]. constructor; [by left|done].
      * intros Hfalse. destruct (IHfalse Hfalse) as [? ?].
        split; [done|]. constructor; [by left|done].
Qed.

Section ExecutorProperties.

Variable toLowerCase : jsstring → jsstring.

Lemma executeDecision_fields beforeState chosen browser :
  let execution := executeDecision toLowerCase beforeState chosen browser in
  let outcome := waitForProgress beforeState (polls browser) (settled browser) in
  Execution.actionSucceeded execution = performLoop (attempts browser) 2 0
  ∧ Execution.progressed execution = outcome.1
  ∧ Execution.afterState execution = outcome.2.
Proof.
  cbn zeta. unfold executeDecision.
  destruct (waitForProgress beforeState (polls browser) (settled browser)) as [moved after].
  by destruct (negb _).
Qed.

(** The mechanical action is tried at most twice: it succeeded exactly when
    the first or the second attempt returned true; an attempt that throws
    counts as failed, and what a third attempt would do is never asked. *)
Theorem executeDecision_two_attempts beforeState chosen browser :
  Execution.actionSucceeded (executeDecision toLowerCase beforeState chosen browser) = true
  ↔ attempts browser 0%nat = Returned true ∨ attempts browser 1%nat = Returned true.
Proof.
  destruct (executeDecision_fields beforeState chosen browser) as [-> _].
  cbn [performLoop].
  destruct (attempts browser 0%nat) as [[|]|e0]; [by split; [left|]|..];
    (destruct (attempts browser 1%nat) as [[|]|e1];
     split; try done; try (by right); by intros [|]).
Qed.

(** When the executor reports progress, the state it returns is the first
    polled state that is a valid surface with a fingerprint other than that
    of the state before: every state polled earlier had the old fingerprint
    or was not valid (still loading).  When it reports none, no polled state
    was one, and the state it returns is the one read after the timeout. *)
Theorem executeDecision_progress beforeState chosen browser :
  let execution := executeDecision toLowerCase beforeState chosen browser in
  let stale st := stateFingerprint st = stateFingerprint beforeState
                  ∨ isValidSurveySurface st = false in
  (Execution.progressed execution = true →
   isValidSurveySurface (Execution.afterState execution) = true
   ∧ stateFingerprint (Execution.afterState execution) ≠ stateFingerprint beforeState
   ∧ ∃ earlier later,
       polls browser = earlier ++ Execution.afterState execution :: later
       ∧ Forall stale earlier)
  ∧ (Execution.progressed execution = false →
     Execution.afterState execution = settled browser ∧ Forall stale (polls browser)).
Proof.
  cbn zeta. destruct (executeDecision_fields beforeState chosen browser) as (_ & -> & ->).
  apply waitForProgress_outcome.
Qed.

Lemma fmap_nil_iff {A B} (f : A → B) (l : list A) : f <$> l = [] ↔ l = [].
Proof. split; [apply fmap_nil_inv|by intros ->]. Qed.

Lemma filter_nil_Forall {A} (P : A → Prop) `{∀ x, base.Decision (P x)} (l : list A) :
  filter P l = [] ↔ Forall (λ x, ¬ P x) l.
Proof.
  induction l as [|x l IH]; [by split; [constructor|]|].
  rewrite filter_cons, list.Forall_cons.
  destruct (decide (P x)); [|by rewrite IH; split; [|intros [_ ?]]].
  split; [done|by intros [? _]].
Qed.

(** After an action that changed the question text nothing is checked: the
    execution reports the single passed assertion "Successfully navigated to
    next step." and no failure.  After one that did not, the passed
    assertions are the requested ones found in the new state, in order, and
    there is no failure exactly when every requested assertion is found,
    every label of a select decision is (case-insensitively) the label of a
    selected option, and the non-empty text of a [type_text] decision occurs
    in the filled value. *)
Theorem executeDecision_assertions beforeState chosen browser :
  let execution := executeDecision toLowerCase beforeState chosen browser in
  let after := Execution.afterState execution in
  let selectedLabels :=
    (λ o, toLowerCase (label o)) <$> filter (λ o, selected o = true) (options after) in
  (questionText beforeState ≠ questionText after →
   Execution.assertionsFailed execution = []
   ∧ Execution.assertionsPassed execution = [js "Successfully navigated to next step."])
  ∧ (questionText beforeState = questionText after →
     Execution.assertionsPassed execution
     = filter (λ a, checkAssertion toLowerCase a after = true) (assertions chosen)
     ∧ (Execution.assertionsFailed execution = [] ↔
          Forall (λ a, checkAssertion toLowerCase a after = true) (assertions chosen)
          ∧ (action chosen = SelectSingleAction ∨ action chosen = SelectMultiAction →
             Forall (λ sel, toLowerCase (selectionLabel sel) ∈ selectedLabels)
               (selections chosen))
          ∧ (action chosen = TypeText → decisionText chosen ≠ [] →
             includes (filledValue after) (decisionText chosen) = true))).
Proof.
  cbn zeta. unfold executeDecision.
  destruct (waitForProgress beforeState (polls browser) (settled browser)) as [moved after].
  destruct (bool_decide_reflect (questionText beforeState ≠ questionText after))
    as [Hchanged|Hsame]; cbn [negb Execution.assertionsFailed Execution.assertionsPassed
                              Execution.afterState].
  { split; [done|]. intros Heq. contradiction. }
  split; [intros Hne; contradiction|]. intros _. split; [done|].
  rewrite !app_nil, filter_nil_Forall.
  assert (∀ P Q R P' Q' R' : Prop, (P ↔ P') → (Q ↔ Q') → (R ↔ R') →
            (P ∧ Q ∧ R ↔ P' ∧ Q' ∧ R')) as Hand by tauto.
  apply Hand.
  - split; intros Hall; (eapply list.Forall_impl; [exact Hall|]); intros a Ha;
      cbn beta in *; by destruct (checkAssertion toLowerCase a after).
  - destruct (bool_decide_reflect
                (action chosen = SelectSingleAction ∨ action chosen = SelectMultiAction))
      as [Hselect|Hother]; [|by split].
    rewrite fmap_nil_iff, filter_nil_Forall. split.
    + intros Hall _. eapply list.Forall_impl; [exact Hall|]. intros sel Hsel. cbn beta in *.
      by destruct (decide (toLowerCase (selectionLabel sel)
                           ∈ (λ o, toLowerCase (label o))
                               <$> filter (λ o, selected o = true) (options after))).
    + intros Hall. eapply list.Forall_impl; [exact (Hall Hselect)|].
      intros sel Hsel Hnot. by apply Hnot.
  - destruct (bool_decide_reflect (action chosen = TypeText)) as [Htype|Hother];
      cbn [andb]; [|by split].
    destruct (decisionText chosen) as [|c text]; cbn [truthy andb]; [by split|].
    destruct (includes (filledValue after) (c :: text)); cbn [negb]; [by split|].
    split; [done|]. intros Himp. by discriminate (Himp Htype).
Qed.

End ExecutorProperties.

Lemma executeDecision_two_attempts_witness :
  let retried := {| attempts := λ k, match k with
                                     | O => Thrown None
                                     | 1%nat => Returned true
                                     | _ => Returned false
                                     end;
                    polls := []; settled := stuckState |} in
  Execution.actionSucceeded (executeDecision foldAscii stuckState selectDecision retried)
  = true.
Proof.
  cbn zeta. apply executeDecision_two_attempts. right. reflexivity.
Defined.

Lemma executeDecision_progress_witness :
  Execution.afterState (executeDecision foldAscii stuckState selectDecision stuckBrowser)
  = stuckState
  ∧ stateFingerprint
      (Execution.afterState
         (executeDecision foldAscii stuckState selectDecision
            {| attempts := λ _, Returned true;
               polls := [stuckState; emptySurface; revisitedState; relocatedState];
               settled := emptySurface |}))
    ≠ stateFingerprint stuckState.
Proof.
  split.
  - destruct (executeDecision_progress foldAscii stuckState selectDecision stuckBrowser)
      as [_ Hstill].
    apply Hstill. reflexivity.
  - destruct (executeDecision_progress foldAscii stuckState selectDecision
                {| attempts := λ _, Returned true;
                   polls := [stuckState; emptySurface; revisitedState; relocatedState];
                   settled := emptySurface |}) as [Hmoved _].
    apply Hmoved. reflexivity.
Defined.

Lemma executeDecision_assertions_witness :
  Execution.assertionsPassed
    (executeDecision foldAscii stuckState submitDecision
       {| attempts := λ _, Returned true; polls := [emailState]; settled := emailState |})
  = [js "Successfully navigated to next step."].
Proof.
  destruct (executeDecision_assertions foldAscii stuckState submitDecision
              {| attempts := λ _, Returned true; polls := [emailState];
                 settled := emailState |}) as [Hchanged _].
  apply Hchanged. discriminate.
Defined.

(** ** Step engine *)

Section FallbackProperties.

Variable toLowerCase : jsstring → jsstring.

(** The fallback decision is shaped by the state alone.  It types text
    exactly on text questions; a single-select decision carries exactly one
    selection and a multi-select decision at least one, in both cases
    labels that [deterministicSelection] drew from the options; navigation
    is clicked only when the state has a navigation button, and
    [cannot_proceed] is answered only without one.  It never asserts
    anything and never claims more confidence than 0.35. *)
Theorem fallbackDecision_shape runId current strategy ruleset :
  let chosen := fallbackDecision toLowerCase runId current strategy ruleset in
  let drawn := deterministicSelection current strategy ruleset runId in
  (action chosen = TypeText ↔ inputType current = TextInput)
  ∧ (action chosen = SelectSingleAction →
     (inputType current = SingleSelect ∨ inputType current = YesNo)
     ∧ ∃ l, head drawn = Some l ∧ selections chosen = [ {| selectionLabel := l |} ])
  ∧ (action chosen = SelectMultiAction →
     inputType current = MultiSelect ∧ drawn ≠ []
     ∧ selectionLabel <$> selections chosen = drawn)
  ∧ (action chosen = ClickNext ∨ action chosen = ClickSubmit →
     navigationButtons current ≠ [] ∧ selections chosen = [])
  ∧ (action chosen = CannotProceed →
     navigationButtons current = [] ∧ inputType current ≠ TextInput
     ∧ needs_screenshot chosen = true)
  ∧ Forall (λ sel, selectionLabel sel ∈ label <$> options current) (selections chosen)
  ∧ assertions chosen = []
  ∧ (confidence chosen <= 35 # 100)%Q.
Proof.
  cbn zeta.
  pose proof (deterministicSelection_submseteq current strategy ruleset runId) as Hdrawn.
  unfold fallbackDecision. cbn zeta.
  set (drawn := deterministicSelection current strategy ruleset runId) in *.
  set (hasSubmit := existsb _ (navigationButtons current)).
  destruct (bool_decide (inputType current = TextInput)) eqn:Htext;
    [|destruct (bool_decide (inputType current = SingleSelect ∨ inputType current = YesNo)
               && bool_decide (0 < length ((λ l, {| selectionLabel := l |})
                                             <$> take 1 drawn))%nat) eqn:Hsingle;
      [|destruct (bool_decide (inputType current = MultiSelect)
                  && bool_decide (0 < length ((λ l, {| selectionLabel := l |})
                                                <$> drawn))%nat) eqn:Hmulti;
        [|destruct (bool_decide (0 < length (navigationButtons current))%nat) eqn:Hnav]]];
    cbn [action selections needs_screenshot assertions confidence];
    repeat match goal with
           | H : _ && _ = true |- _ => apply andb_true_iff in H as [? ?]
           | H : bool_decide _ = true |- _ => apply bool_decide_eq_true in H
           | H : bool_decide _ = false |- _ => apply bool_decide_eq_false in H
           end.
  all: split_and!;
    try first
      [ done
      | by split
      | by intros [|]
      | by constructor
      | by (unfold Qle; simpl; lia)
      | by (destruct hasSubmit; first [done | by split | by intros [|]])
      | by (split; [destruct hasSubmit|]) ].
  - intros _. split; [done|].
    destruct drawn as [|l rest]; [simpl in *; lia|]. by exists l.
  - apply Forall_fmap, list.Forall_forall. intros l Hl. cbn.
    eapply elem_of_submseteq; [|exact Hdrawn].
    apply elem_of_take in Hl as (i & Hi & _). by eapply list_elem_of_lookup_2.
  - intros _. split_and!; [done| |].
    + intros Hnil. rewrite Hnil in *. simpl in *. lia.
    + rewrite <- list_fmap_compose. apply list_fmap_id.
  - apply Forall_fmap, list.Forall_forall. intros l Hl. cbn.
    by eapply elem_of_submseteq.
  - intros _. split; [|done]. intros Hnil. rewrite Hnil in *. simpl in *. lia.
  - intros _. split_and!; [|done|done].
    destruct (navigationButtons current); [done|simpl in *; lia].
Qed.



End FallbackProperties.

Lemma fallbackDecision_shape_witness :
  selections (fallbackDecision foldAscii (js "run-1")
                (extractFromContext foldAscii yesNoSurface) StrategyLast None)
  = [ {| selectionLabel := js "No" |} ].
Proof.
  destruct (fallbackDecision_shape foldAscii (js "run-1")
              (extractFromContext foldAscii yesNoSurface) StrategyLast None)
    as (_ & Hsingle & _).
  destruct (Hsingle eq_refl) as (_ & l & Hhead & Hselections).
  rewrite Hselections. injection Hhead as <-. reflexivity.
Defined.

Lemma noStall_snoc_end recorded sr : noStall recorded → stallsOnlyAtEnd (recorded ++ [sr]).
Proof.
  intros Hno i a b Ha Hb Hstall Hstall'. rewrite length_app. cbn [length].
  destruct (decide (S i < length recorded)%nat) as [Hin|Hout].
  - rewrite lookup_app_l in Ha, Hb by lia. destruct (Hno i a b Ha Hb Hstall Hstall').
  - apply lookup_lt_Some in Hb. rewrite length_app in Hb. cbn [length] in Hb. lia.
Qed.

Lemma noStall_stallsOnlyAtEnd recorded : noStall recorded → stallsOnlyAtEnd recorded.
Proof. intros Hno i a b Ha Hb Hstall Hstall'. destruct (Hno i a b Ha Hb Hstall Hstall'). Qed.

Lemma noStall_snoc recorded sr :
  noStall recorded →
  (progressed sr = true ∨ ∀ a, list.last recorded = Some a → progressed a = true) →
  noStall (recorded ++ [sr]).
Proof.
  intros Hno Hok i a b Ha Hb Hstall Hstall'.
  destruct (decide (S i < length recorded)%nat) as [Hin|Hout].
  - rewrite lookup_app_l in Ha, Hb by lia. exact (Hno i a b Ha Hb Hstall Hstall').
  - assert (S i = length recorded) as Hlast.
    { apply lookup_lt_Some in Hb. rewrite length_app in Hb. cbn [length] in Hb. lia. }
    rewrite lookup_app_l in Ha by lia.
    rewrite lookup_app_r, Hlast, Nat.sub_diag in Hb by lia. injection Hb as <-.
    destruct Hok as [Hsr|Hprev]; [congruence|].
    assert (list.last recorded = Some a) as Hlasta.
    { rewrite last_lookup. rewrite <- Hlast. exact Ha. }
    specialize (Hprev a Hlasta). congruence.
Qed.

Section LoopInvariants.

Variable toLowerCase : jsstring → jsstring.
Variable hostnameOf : jsstring → option jsstring.

Lemma concludeStep_flow run limit w k vars current chosen shots execution :
  match concludeStep toLowerCase run limit w k vars current chosen shots execution with
  | Continue vars' =>
      ∃ sr, curSteps vars' = curSteps vars ++ [sr] ∧ step sr = k
            ∧ stagnantSteps vars' = (if progressed sr then 0 else S (stagnantSteps vars))%nat
            ∧ (stagnantSteps vars' < 2)%nat
            ∧ (curStatus vars' = curStatus vars ∨ curStatus vars' = Blocked)
  | Break vars' => curStatus vars' = Success ∨ curStatus vars' = Blocked
  | Throw _ _ => True
  end.
Proof.
  unfold concludeStep. cbn zeta.
  set (progressed1 := if bool_decide (0 < length _)%nat then false else _).
  clearbody progressed1.
  destruct (bool_decide (action chosen = ClickSubmit) && _); [by left|].
  destruct (isCompletionLikely toLowerCase (Execution.afterState execution)); [by left|].
  destruct (bool_decide_reflect
              (2 ≤ (if negb progressed1 then S (stagnantSteps vars) else 0))%nat)
    as [Hstalled|Hgoing].
  - destruct (negb (captureScreenshots run)); [|by right].
    destruct (screenshot w (js "stagnant")); [by right|done].
  - destruct (bool_decide (Z.of_nat k = limit)); eexists;
      (split; [reflexivity|]); cbn [step progressed finish stagnantSteps curStatus];
      (split_and!; [done|by destruct progressed1|lia|auto]).
Qed.

(** How one iteration changes the variables of the loop. *)
Lemma iteration_flow run limit w k vars :
  match iteration toLowerCase hostnameOf run limit w k vars with
  | Continue vars' =>
      ∃ sr, curSteps vars' = curSteps vars ++ [sr] ∧ step sr = k
            ∧ stagnantSteps vars' = (if progressed sr then 0 else S (stagnantSteps vars))%nat
            ∧ (stagnantSteps vars' < 2)%nat
            ∧ (curStatus vars' = curStatus vars ∨ curStatus vars' = Blocked)
  | Break vars' => curStatus vars' = Success ∨ curStatus vars' = Blocked
  | Throw _ _ => True
  end.
Proof.
  unfold iteration.
  destruct (extracted w) as [current|e]; [|done].
  destruct (isCompletionLikely toLowerCase current); [by left|].
  destruct (externalExit hostnameOf run current k); [by left|].
  destruct (if captureScreenshots run || needs_screenshot _ then _ else _)
    as [shots|e]; [|done].
  destruct (negb (completeSurvey run) && bool_decide (1 < k)%nat); [by left|].
  destruct (bool_decide (action _ = CannotProceed)).
  - destruct (if negb (captureScreenshots run) then _ else _) as [shots'|e]; [by right|done].
  - destruct (executed w) as [browser|e]; [|done]. apply concludeStep_flow.
Qed.

Lemma stepLoop_keeps run limit world fuel : ∀ k vars,
  loopInvariant k vars →
  let flow := stepLoop toLowerCase hostnameOf run limit world fuel k vars in
  step <$> curSteps (flowState flow) = seq 1 (length (curSteps (flowState flow)))
  ∧ stallsOnlyAtEnd (curSteps (flowState flow))
  ∧ match flow with
    | Throw _ _ => True
    | _ => curStatus (flowState flow) ≠ Running
    end.
Proof.
  assert (∀ (recorded : list StepResult) sr,
            step <$> recorded = seq 1 (length recorded) → step sr = S (length recorded) →
            step <$> recorded ++ [sr] = seq 1 (length (recorded ++ [sr]))) as Hnumber.
  { intros recorded sr Hseq Hsr. rewrite fmap_app, Hseq, length_app. cbn [length fmap list_fmap].
    rewrite Nat.add_1_r, seq_S, Hsr. done. }
  induction fuel as [|fuel IH]; intros k vars (Hseq & Hk & Hno & Hzero & Hstatus); cbn zeta.
  - cbn [stepLoop flowState]. split_and!; [done|by apply noStall_stallsOnlyAtEnd|done].
  - cbn [stepLoop].
    pose proof (iteration_adds toLowerCase hostnameOf run limit (atStep world k) k vars)
      as Hadds.
    pose proof (iteration_flow run limit (atStep world k) k vars) as Hflow.
    cbn zeta in Hadds.
    destruct (iteration toLowerCase hostnameOf run limit (atStep world k) k vars)
      as [vars'|vars'|vars' e]; cbn [flowState] in *.
    + destruct Hflow as (sr & Hsteps & Hstep & Hcount & Hbound & Hstatus').
      apply IH. unfold loopInvariant. rewrite Hsteps.
      split_and!.
      * apply Hnumber; [done|lia].
      * rewrite length_app. cbn [length]. lia.
      * apply noStall_snoc; [done|].
        destruct (progressed sr) eqn:Hsr; [by left|]. right. apply Hzero. lia.
      * intros Hcount0 a. rewrite last_snoc. intros [= <-].
        destruct (progressed sr); [done|lia].
      * destruct Hstatus' as [->| ->]; done.
    + destruct Hadds as [Hsame|(sr & Hsteps & Hstep & _)].
      * rewrite Hsame. split_and!; [done|by apply noStall_stallsOnlyAtEnd|].
        destruct Hflow as [->| ->]; done.
      * rewrite Hsteps. split_and!; [apply Hnumber; [done|lia]|by apply noStall_snoc_end|].
        destruct Hflow as [->| ->]; done.
    + destruct Hadds as [Hsame|(sr & Hsteps & Hstep & _)].
      * rewrite Hsame. split_and!; [done|by apply noStall_stallsOnlyAtEnd|done].
      * rewrite Hsteps. split_and!; [apply Hnumber; [done|lia]|by apply noStall_snoc_end|done].
Qed.

Lemma runSurvey_invariants run world :
  let final := runSurvey toLowerCase hostnameOf run world in
  step <$> steps final = seq 1 (length (steps final))
  ∧ stallsOnlyAtEnd (steps final)
  ∧ status final ≠ Running.
Proof.
  cbn zeta. unfold runSurvey. cbn zeta.
  assert (stallsOnlyAtEnd []) as Hnil by (intros i a b Ha; by rewrite lookup_nil in Ha).
  destruct (opening world) as [initialState|e]; [|by split_and!].
  destruct (negb (isValidSurveySurface initialState)).
  { destruct (if captureScreenshots run then _ else _); by split_and!. }
  set (vars0 := {| curStatus := Success; curMessage := _; curSteps := [];
                   stagnantSteps := 0 |}).
  assert (loopInvariant 1 vars0) as Hinit.
  { unfold loopInvariant. cbn. split_and!; done. }
  pose proof (stepLoop_keeps run (default 40 (maxSteps run)) world
                (Z.to_nat (default 40 (maxSteps run))) 1 vars0 Hinit) as Hkeeps.
  cbn zeta in Hkeeps.
  destruct (stepLoop toLowerCase hostnameOf run _ world _ 1 vars0)
    as [vars'|vars'|vars' e]; cbn [flowState] in Hkeeps;
    destruct Hkeeps as (Hseq & Hstall & Hstatus); by split_and!.
Qed.

(** The steps of a report are numbered 1, 2, 3, ... without a gap, in the
    order in which they were recorded, and the status of a report is one of
    [success], [blocked] and [error], never [running]. *)
Theorem runSurvey_steps_numbered run world :
  let final := runSurvey toLowerCase hostnameOf run world in
  step <$> steps final = seq 1 (length (steps final))
  ∧ (∀ i sr, steps final !! i = Some sr → step sr = S i)
  ∧ (status final = Success ∨ status final = Blocked ∨ status final = Error).
Proof.
  cbn zeta. destruct (runSurvey_invariants run world) as (Hseq & _ & Hstatus).
  split_and!; [done| |].
  - intros i sr Hsr.
    assert ((step <$> steps (runSurvey toLowerCase hostnameOf run world)) !! i
            = Some (step sr)) as Hi by (by rewrite list_lookup_fmap, Hsr).
    rewrite Hseq in Hi. apply lookup_seq in Hi as [-> _]. done.
  - destruct (status (runSurvey toLowerCase hostnameOf run world)); auto. done.
Qed.

(** A run never goes on after two steps in a row that did not progress:
    whenever a step that did not progress directly follows another one,
    these two are the last steps of the report. *)
Theorem stalls_end_the_run run world :
  let final := runSurvey toLowerCase hostnameOf run world in
  ∀ i a b,
    steps final !! i = Some a → steps final !! S i = Some b →
    progressed a = false → progressed b = false →
    S (S i) = length (steps final).
Proof. cbn zeta. by destruct (runSurvey_invariants run world) as (_ & Hstall & _). Qed.

End LoopInvariants.

Lemma runSurvey_steps_numbered_witness :
  step <$> steps (runSurvey foldAscii httpsHostname (sampleRun None)
                    (stuckWorld selectDecision)) = [1; 2]%nat.
Proof.
  destruct (runSurvey_steps_numbered foldAscii httpsHostname (sampleRun None)
              (stuckWorld selectDecision)) as [Hseq _].
  rewrite Hseq. reflexivity.
Defined.

Lemma stalls_end_the_run_witness :
  length (steps (runSurvey foldAscii httpsHostname (sampleRun None)
                   (stuckWorld selectDecision))) = 2%nat.
Proof.
  symmetry.
  eapply (stalls_end_the_run foldAscii httpsHostname (sampleRun None)
            (stuckWorld selectDecision) 0%nat); reflexivity.
Defined.

Section VerdictProperties.

Variable toLowerCase : jsstring → jsstring.

(** The progress signal of the executor adds nothing to the comparison of
    fingerprints in [runSurvey]: since the executor only reports progress
    with a state of another fingerprint, an executed step is recorded as
    progressed exactly when the fingerprint after the action differs from
    the one before and no assertion failed. *)
Theorem progress_is_fingerprint_change run limit w k vars current chosen shots browser :
  let execution := executeDecision toLowerCase current chosen browser in
  let flow := concludeStep toLowerCase run limit w k vars current chosen shots execution in
  ∃ sr,
    curSteps (flowState flow) = curSteps vars ++ [sr]
    ∧ (progressed sr = true ↔
         stateFingerprint (Execution.afterState execution) ≠ stateFingerprint current
         ∧ Execution.assertionsFailed execution = []).
Proof.
  cbn zeta.
  destruct (concludeStep_recorded toLowerCase run limit w k vars current chosen shots
              (executeDecision toLowerCase current chosen browser))
    as (sr & Hsteps & _ & _ & _ & _ & Hprogressed & _).
  exists sr. split; [done|]. rewrite Hprogressed. unfold verdict.
  destruct (executeDecision_fields toLowerCase current chosen browser) as (_ & Hflag & Hafter).
  destruct (waitForProgress_outcome current (polls browser) (settled browser))
    as [Hmoved _]. rewrite <- Hflag, <- Hafter in Hmoved.
  destruct (Execution.assertionsFailed _) as [|a failed].
  - rewrite bool_decide_eq_false_2 by (simpl; lia).
    rewrite orb_true_iff, bool_decide_eq_true. split.
    + intros [Hreported|Hchanged]; [by destruct (Hmoved Hreported) as (_ & ? & _)|done].
    + intros [Hchanged _]. by right.
  - rewrite bool_decide_eq_true_2 by (simpl; lia). split; [done|by intros [_ ?]].
Qed.

End VerdictProperties.

Lemma progress_is_fingerprint_change_witness :
  ∃ sr,
    curSteps (flowState
                (concludeStep foldAscii (sampleRun None) 40
                   (atStep (stuckWorld selectDecision) 1) 1
                   {| curStatus := Success; curMessage := []; curSteps := [];
                      stagnantSteps := 0 |}
                   stuckState selectDecision []
                   (executeDecision foldAscii stuckState selectDecision
                      {| attempts := λ _, Returned true; polls := [];
                         settled := emailState |}))) = [sr]
    ∧ progressed sr = true.
Proof.
  destruct (progress_is_fingerprint_change foldAscii (sampleRun None) 40
              (atStep (stuckWorld selectDecision) 1) 1
              {| curStatus := Success; curMessage := []; curSteps := [];
                 stagnantSteps := 0 |}
              stuckState selectDecision []
              {| attempts := λ _, Returned true; polls := []; settled := emailState |})
    as (sr & Hsteps & Hiff).
  exists sr. split; [exact Hsteps|]. apply Hiff. split; [discriminate|reflexivity].
Defined.

Lemma openingLoop_found extracts fuel : ∀ retries initialState s,
  openingLoop extracts fuel retries initialState = Returned s →
  ∃ i, (retries ≤ i ≤ retries + fuel)%nat
       ∧ (i = retries → s = initialState)
       ∧ ((retries < i)%nat →
          extracts i = Returned s ∧ isValidSurveySurface initialState = false)
       ∧ (∀ j, (retries < j < i)%nat →
               ∃ sj, extracts j = Returned sj ∧ isValidSurveySurface sj = false)
       ∧ (isValidSurveySurface s = false → i = (retries + fuel)%nat).
Proof.
  induction fuel as [|fuel IH]; intros retries initialState s; cbn [openingLoop].
  - intros [= <-]. exists retries. split_and!; [lia|lia|done|lia|intros; lia|intros; lia].
  - destruct (isValidSurveySurface initialState) eqn:Hvalid.
    + intros [= <-]. exists retries.
      split_and!; [lia|lia|done|lia|intros; lia|congruence].
    + destruct (extracts (S retries)) as [next|e] eqn:Hnext; [|done].
      intros Hloop. destruct (IH _ _ _ Hloop) as (i & Hrange & Hfirst & Hlater & Hbetween & Hlast).
      exists i. split_and!; [lia|lia|lia| | |intros; rewrite Hlast by done; lia].
      * intros _. split; [|done].
        destruct (decide (i = S retries)) as [->|Hne]; [by rewrite Hfirst|].
        apply Hlater. lia.
      * intros j Hj. destruct (decide (j = S retries)) as [->|Hne].
        -- exists next. split; [done|]. apply Hlater. lia.
        -- apply Hbetween. lia.
Qed.

Lemma openingLoop_ext extracts extracts' fuel : ∀ retries initialState,
  (∀ i, (retries < i ≤ retries + fuel)%nat → extracts' i = extracts i) →
  openingLoop extracts' fuel retries initialState
  = openingLoop extracts fuel retries initialState.
Proof.
  induction fuel as [|fuel IH]; intros retries initialState Hsame; [done|].
  cbn [openingLoop]. destruct (isValidSurveySurface initialState); [done|].
  rewrite Hsame by lia. destruct (extracts (S retries)); [|done].
  apply IH. intros i Hi. apply Hsame. lia.
Qed.

(** The opening phase extracts the state at most 11 times (once and then
    up to 10 retries) and stops at the first valid one: the state it ends
    with is the first valid extraction, or the eleventh extraction when the
    first ten were invalid as well; what a twelfth extraction would give is
    never asked. *)
Theorem opening_retries world :
  (∀ s, opening world = Returned s →
        ∃ i, (i ≤ 10)%nat
             ∧ openingExtracts world i = Returned s
             ∧ (∀ j, (j < i)%nat →
                     ∃ sj, openingExtracts world j = Returned sj
                           ∧ isValidSurveySurface sj = false)
             ∧ (isValidSurveySurface s = false → i = 10%nat))
  ∧ (∀ world',
       navigated world' = navigated world →
       (∀ i, (i ≤ 10)%nat → openingExtracts world' i = openingExtracts world i) →
       opening world' = opening world).
Proof.
  unfold opening. split.
  - intros s. destruct (navigated world); [|done].
    destruct (openingExtracts world 0%nat) as [first|e] eqn:Hfirst; [|done].
    intros Hloop.
    destruct (openingLoop_found _ _ _ _ _ Hloop)
      as (i & Hrange & Hzero & Hlater & Hbetween & Hlast).
    exists i. split_and!; [lia| | |intros; rewrite Hlast by done; lia].
    + destruct (decide (i = 0%nat)) as [->|Hne]; [by rewrite Hzero|]. apply Hlater. lia.
    + intros j Hj. destruct (decide (j = 0%nat)) as [->|Hne].
      * exists first. split; [done|]. apply Hlater. lia.
      * apply Hbetween. lia.
  - intros world' Hnav Hsame. rewrite Hnav. destruct (navigated world); [|done].
    rewrite Hsame by lia. destruct (openingExtracts world 0%nat); [|done].
    apply openingLoop_ext. intros i Hi. apply Hsame. lia.
Qed.

Lemma opening_retries_witness :
  opening (stuckWorld selectDecision)
  = opening {| navigated := Returned ();
               openingExtracts := λ i, if (i <=? 10)%nat then Returned stuckState
                                        else Thrown None;
               invalidSurfaceScreenshot := Thrown None;
               atStep := atStep (stuckWorld submitDecision) |}.
Proof.
  destruct (opening_retries
              {| navigated := Returned ();
                 openingExtracts := λ i, if (i <=? 10)%nat then Returned stuckState
                                          else Thrown None;
                 invalidSurfaceScreenshot := Thrown None;
                 atStep := atStep (stuckWorld submitDecision) |}) as [_ Hsame].
  apply Hsame; [reflexivity|].
  intros i Hi. cbn. apply Nat.leb_le in Hi. by rewrite Hi.
Defined.

Section IdleRuns.

Variable toLowerCase : jsstring → jsstring.
Variable hostnameOf : jsstring → option jsstring.

(** Runs that never reach a step.  When the navigation or an extraction of
    the opening phase throws, the report has status [error], the message of
    the exception and no step.  When the opening phase ends on an invalid
    surface (and the screenshot of it, if one is taken, succeeds), the
    report has status [blocked] and no step.  When [maxSteps] is zero or
    negative and a valid surface is found, the loop is not entered and the
    report has status [success] ("Survey run completed.") and no step. *)
Theorem runSurvey_idle run world :
  let final := runSurvey toLowerCase hostnameOf run world in
  (∀ e, opening world = Thrown e →
        status final = Error ∧ steps final = []
        ∧ message final = default (js "Unexpected runner error.") e)
  ∧ (∀ s, opening world = Returned s → isValidSurveySurface s = false →
          (captureScreenshots run = true → invalidSurfaceScreenshot world = Returned ()) →
          status final = Blocked ∧ steps final = []
          ∧ message final
            = js "Survey page loaded but no visible question/input was detected.")
  ∧ (surfaceFound world = true → default 40 (maxSteps run) ≤ 0 →
     status final = Success ∧ steps final = []
     ∧ message final = js "Survey run completed.").
Proof.
  cbn zeta. unfold runSurvey, surfaceFound. cbn zeta. split_and!.
  - by intros e ->.
  - intros s -> ->. cbn [negb]. intros Hshot.
    destruct (captureScreenshots run); [by rewrite Hshot|done].
  - destruct (opening world) as [s|e]; [|done]. intros -> Hlimit. cbn [negb].
    replace (Z.to_nat (default 40 (maxSteps run))) with 0%nat by lia. done.
Qed.

End IdleRuns.

Lemma runSurvey_idle_witness :
  status (runSurvey foldAscii httpsHostname (sampleRun (Some 0)) (stuckWorld selectDecision))
  = Success
  ∧ steps (runSurvey foldAscii httpsHostname (sampleRun (Some 0)) (stuckWorld selectDecision))
    = [].
Proof.
  destruct (runSurvey_idle foldAscii httpsHostname (sampleRun (Some 0))
              (stuckWorld selectDecision)) as (_ & _ & Hzero).
  destruct Hzero as (Hstatus & Hsteps & _); [reflexivity|vm_compute; discriminate|].
  by split.
Defined.

(** ** Runs that stop early *)

Section EarlyStops.

Variable toLowerCase : jsstring → jsstring.
Variable hostnameOf : jsstring → option jsstring.

(** What an iteration records, told apart by the decision of the record. *)
Lemma iteration_records run limit w k vars :
  let flow := iteration toLowerCase hostnameOf run limit w k vars in
  let executedStep :=
    ∃ sr, curSteps (flowState flow) = curSteps vars ++ [sr]
          ∧ action (decision sr) ≠ CannotProceed in
  let refusedStep :=
    ∃ sr, flow = Break (flowState flow)
          ∧ curSteps (flowState flow) = curSteps vars ++ [sr]
          ∧ curStatus (flowState flow) = Blocked
          ∧ curMessage (flowState flow)
            = js "LLM reported cannot_proceed at step " ++ numberToString k ++ js "."
          ∧ actionSucceeded sr = false ∧ progressed sr = false
          ∧ assertionsPassed sr = [] ∧ assertionsFailed sr = [js "Cannot proceed."] in
  match flow with
  | Continue _ => executedStep
  | _ => curSteps (flowState flow) = curSteps vars ∨ executedStep ∨ refusedStep
  end.
Proof.
  cbn zeta. unfold iteration.
  destruct (extracted w) as [current|e]; [|by left].
  destruct (isCompletionLikely toLowerCase current); [by left|].
  destruct (externalExit hostnameOf run current k); [by left|].
  set (chosen := decisionFor toLowerCase run w current).
  destruct (if captureScreenshots run || needs_screenshot chosen then _ else _)
    as [shots|e]; [|by left].
  destruct (negb (completeSurvey run) && bool_decide (1 < k)%nat); [by left|].
  destruct (bool_decide_reflect (action chosen = CannotProceed)) as [Hrefused|Hchosen].
  - destruct (if negb (captureScreenshots run) then _ else _) as [shots'|e]; [|by left].
    right. right. eexists. cbn [flowState curSteps curStatus curMessage].
    split_and!; reflexivity.
  - destruct (executed w) as [browser|e]; [|by left].
    destruct (concludeStep_recorded toLowerCase run limit w k vars current chosen shots
                (executeDecision toLowerCase current chosen browser))
      as (sr & Hsteps & _ & _ & Hdecision & _).
    assert (∃ sr, curSteps (flowState (concludeStep toLowerCase run limit w k vars current
                                         chosen shots
                                         (executeDecision toLowerCase current chosen browser)))
                  = curSteps vars ++ [sr] ∧ action (decision sr) ≠ CannotProceed) as Hexecuted.
    { exists sr. split; [done|]. by rewrite Hdecision. }
    destruct (concludeStep _ _ _ _ _ _ _ _ _ _); auto.
Qed.

Lemma stepLoop_refusal run limit world fuel : ∀ k vars,
  S (length (curSteps vars)) = k →
  Forall (λ sr, action (decision sr) ≠ CannotProceed) (curSteps vars) →
  let flow := stepLoop toLowerCase hostnameOf run limit world fuel k vars in
  Forall (λ sr, action (decision sr) ≠ CannotProceed) (curSteps (flowState flow))
  ∨ ∃ earlier sr,
      flow = Break (flowState flow)
      ∧ curSteps (flowState flow) = earlier ++ [sr]
      ∧ Forall (λ sr, action (decision sr) ≠ CannotProceed) earlier
      ∧ curStatus (flowState flow) = Blocked
      ∧ curMessage (flowState flow)
        = js "LLM reported cannot_proceed at step "
          ++ numberToString (S (length earlier)) ++ js "."
      ∧ actionSucceeded sr = false ∧ progressed sr = false
      ∧ assertionsPassed sr = [] ∧ assertionsFailed sr = [js "Cannot proceed."].
Proof.
  induction fuel as [|fuel IH]; intros k vars Hk Hall; cbn zeta; [by left|].
  cbn [stepLoop].
  pose proof (iteration_records run limit (atStep world k) k vars) as Hrecords.
  cbn zeta in Hrecords.
  assert (∀ vars',
            (∃ sr, curSteps vars' = curSteps vars ++ [sr]
                   ∧ action (decision sr) ≠ CannotProceed) →
            S (length (curSteps vars')) = S k
            ∧ Forall (λ sr, action (decision sr) ≠ CannotProceed) (curSteps vars')) as Hgrow.
  { intros vars' (sr & -> & Hsr). rewrite length_app. cbn [length]. split; [lia|].
    apply Forall_app. split; [done|]. by apply Forall_singleton. }
  destruct (iteration toLowerCase hostnameOf run limit (atStep world k) k vars)
    as [vars'|vars'|vars' e]; cbn [flowState] in *.
  - apply IH; by apply Hgrow.
  - destruct Hrecords as [Hsame|[Hexecuted|Hrefused]].
    + left. by rewrite Hsame.
    + left. by apply Hgrow.
    + right. destruct Hrefused as (sr & _ & Hsteps & Hstatus & Hmessage & Hfields).
      exists (curSteps vars), sr. rewrite Hk. split_and!; try done; apply Hfields.
  - destruct Hrecords as [Hsame|[Hexecuted|Hrefused]].
    + left. by rewrite Hsame.
    + left. by apply Hgrow.
    + by destruct Hrefused as (sr & [=] & _).
Qed.

(** A step whose decision is [cannot_proceed] is never executed and ends
    the run: it is the last step of the report, it is recorded as not
    succeeded and not progressed with the single failed assertion
    "Cannot proceed.", and the report has status [blocked] with the message
    that names the number of this step. *)
Theorem cannot_proceed_ends_run run world :
  let final := runSurvey toLowerCase hostnameOf run world in
  ∀ i sr,
    steps final !! i = Some sr → action (decision sr) = CannotProceed →
    S i = length (steps final)
    ∧ status final = Blocked
    ∧ message final
      = js "LLM reported cannot_proceed at step " ++ numberToString (S i) ++ js "."
    ∧ actionSucceeded sr = false ∧ progressed sr = false
    ∧ assertionsPassed sr = [] ∧ assertionsFailed sr = [js "Cannot proceed."].
Proof.
  cbn zeta. intros i sr. unfold runSurvey. cbn zeta.
  destruct (opening world) as [initialState|e];
    [|cbn [failed report steps]; by rewrite lookup_nil].
  destruct (negb (isValidSurveySurface initialState)).
  { destruct (if captureScreenshots run then _ else _);
      cbn [failed report steps]; by rewrite lookup_nil. }
  set (vars0 := {| curStatus := Success; curMessage := _; curSteps := [];
                   stagnantSteps := 0 |}).
  pose proof (stepLoop_refusal run (default 40 (maxSteps run)) world
                (Z.to_nat (default 40 (maxSteps run))) 1 vars0 eq_refl (Forall_nil_2 _))
    as Hloop.
  cbn zeta in Hloop.
  assert (∀ recorded : list StepResult,
            Forall (λ sr, action (decision sr) ≠ CannotProceed) recorded →
            recorded !! i = Some sr → action (decision sr) ≠ CannotProceed) as Hexecuted.
  { intros recorded Hall Hsr. exact (Forall_lookup_1 _ _ _ _ Hall Hsr). }
  destruct Hloop as [Hall|(earlier & last & Hflow & Hsteps & Hall & Hstatus & Hmessage & Hfields)].
  - destruct (stepLoop toLowerCase hostnameOf run _ world _ 1 vars0)
      as [vars'|vars'|vars' e]; cbn [flowState report failed steps] in *;
      intros Hsr Hrefused; by destruct (Hexecuted _ Hall Hsr).
  - destruct (stepLoop toLowerCase hostnameOf run _ world _ 1 vars0)
      as [vars'|vars'|vars' e]; try discriminate Hflow.
    cbn [flowState report steps status message] in *. rewrite Hsteps.
    intros Hsr Hrefused.
    destruct (decide (i < length earlier)%nat) as [Hin|Hout].
    { rewrite lookup_app_l in Hsr by done. by destruct (Hexecuted _ Hall Hsr). }
    assert (i = length earlier) as ->.
    { apply lookup_lt_Some in Hsr. rewrite length_app in Hsr. cbn [length] in Hsr. lia. }
    rewrite lookup_app_r, Nat.sub_diag in Hsr by lia. injection Hsr as <-.
    rewrite length_app. cbn [length]. split_and!; [lia|done|done|apply Hfields..].
Qed.

Lemma iteration_preview run limit w k vars :
  completeSurvey run = false → (1 < k)%nat →
  let flow := iteration toLowerCase hostnameOf run limit w k vars in
  curSteps (flowState flow) = curSteps vars
  ∧ match flow with Continue _ => False | _ => True end.
Proof.
  intros Hpreview Hk. cbn zeta. unfold iteration.
  destruct (extracted w) as [current|e]; [|done].
  destruct (isCompletionLikely toLowerCase current); [done|].
  destruct (externalExit hostnameOf run current k); [done|].
  destruct (if captureScreenshots run || needs_screenshot _ then _ else _)
    as [shots|e]; [|done].
  rewrite Hpreview. cbn [negb andb]. by rewrite bool_decide_eq_true_2 by done.
Qed.

(** With [completeSurvey = false] a run records at most one step: the
    second iteration ends the run before anything is executed. *)
Theorem preview_run_single_step run world :
  completeSurvey run = false →
  (length (steps (runSurvey toLowerCase hostnameOf run world)) ≤ 1)%nat.
Proof.
  intros Hpreview. unfold runSurvey. cbn zeta.
  destruct (opening world) as [initialState|e]; [|cbn; lia].
  destruct (negb (isValidSurveySurface initialState)).
  { destruct (if captureScreenshots run then _ else _); cbn; lia. }
  set (vars0 := {| curStatus := Success; curMessage := _; curSteps := [];
                   stagnantSteps := 0 |}).
  set (limit := default 40 (maxSteps run)).
  assert (∀ fuel k vars,
            (1 < k)%nat →
            curSteps (flowState (stepLoop toLowerCase hostnameOf run limit world fuel k vars))
            = curSteps vars) as Hrest.
  { intros fuel k vars Hk. destruct fuel as [|fuel]; [done|]. cbn [stepLoop].
    destruct (iteration_preview run limit (atStep world k) k vars Hpreview Hk)
      as [Hsame Hstop].
    by destruct (iteration toLowerCase hostnameOf run limit (atStep world k) k vars). }
  assert (length (curSteps (flowState
                              (stepLoop toLowerCase hostnameOf run limit world
                                 (Z.to_nat limit) 1 vars0))) ≤ 1)%nat as Hshort.
  { destruct (Z.to_nat limit) as [|fuel]; [cbn; lia|]. cbn [stepLoop].
    pose proof (iteration_adds toLowerCase hostnameOf run limit (atStep world 1) 1 vars0)
      as Hadds.
    cbn zeta in Hadds.
    assert (length (curSteps (flowState
                                (iteration toLowerCase hostnameOf run limit
                                   (atStep world 1) 1 vars0))) ≤ 1)%nat as Hfirst.
    { destruct Hadds as [->|(sr & -> & _)]; cbn; lia. }
    destruct (iteration toLowerCase hostnameOf run limit (atStep world 1) 1 vars0)
      as [vars'|vars'|vars' e]; cbn [flowState] in *; [|done..].
    rewrite Hrest by lia. done. }
  by destruct (stepLoop toLowerCase hostnameOf run limit world (Z.to_nat limit) 1 vars0).
Qed.

End EarlyStops.

Lemma cannot_proceed_ends_run_witness :
  status (runSurvey foldAscii httpsHostname (sampleRun None) (stuckWorld refusalDecision))
  = Blocked.
Proof.
  edestruct (cannot_proceed_ends_run foldAscii httpsHostname (sampleRun None)
               (stuckWorld refusalDecision) 0%nat) as (_ & Hstatus & _);
    [vm_compute; reflexivity|reflexivity|exact Hstatus].
Defined.

Lemma preview_run_single_step_witness :
  (length (steps (runSurvey foldAscii httpsHostname previewRun (stuckWorld selectDecision)))
   ≤ 1)%nat.
Proof. apply (preview_run_single_step foldAscii httpsHostname previewRun). reflexivity. Defined.

(** ** The runner *)

Lemma deterministicSelection_ruleset_ext s strategy r1 r2 runId :
  multiSelectMode r1 = multiSelectMode r2 → effectiveN r1 = effectiveN r2 →
  r1 ≫= singleSelect = r2 ≫= singleSelect →
  deterministicSelection s strategy r1 runId = deterministicSelection s strategy r2 runId.
Proof.
  intros Hmode Hcount Hsingle. unfold deterministicSelection.
  by rewrite Hmode, Hcount, Hsingle.
Qed.

Lemma deterministicSelection_length s strategy r runId :
  ¬ (strategy = StrategyRuleset ∧ inputType s = MultiSelect ∧ multiSelectMode r = All) →
  (length (deterministicSelection s strategy r runId) ≤ Z.to_nat (effectiveN r))%nat.
Proof.
  intros Hmode. pose proof (effectiveN_ge_1 r) as Hcount.
  destruct (decide (options s = [])) as [Hnil|Hopts].
  { unfold deterministicSelection. rewrite Hnil. simpl. lia. }
  destruct (decide (strategy = StrategyRuleset)) as [->|Hstrategy].
  - destruct (decide (inputType s = MultiSelect)) as [Htype|Htype].
    + rewrite deterministicSelection_ruleset_multi by done.
      destruct (multiSelectMode r) eqn:Hmd.
      * rewrite length_take. lia.
      * destruct Hmode. by split_and!.
      * destruct (randomLoop_picks runId s (effectiveN r) (label <$> options s) [])
          as (picked & -> & _ & Hlen & _).
        cbn [app length] in *. lia.
    + unfold deterministicSelection. cbn zeta.
      destruct (decide (length (label <$> options s) = 0%nat)); [simpl; lia|].
      destruct (decide (StrategyRuleset ≠ StrategyRuleset)); [done|].
      destruct (decide (inputType s = MultiSelect)); [done|].
      rewrite filter_cons, filter_nil. destruct (decide _); simpl; lia.
  - rewrite deterministicSelection_positional by done. cbn zeta.
    destruct (truthy _); simpl; lia.
Qed.

(** The ruleset that reaches the engine through the runner.  The copy made
    by [startRun] keeps the mode, and the count is that of the request
    except for [n = 0], which is dropped, so that the count is 2 instead
    of 1.  For a ruleset that the request schema accepts, the count is
    between 1 and 10, the selection is the one of the request's ruleset,
    and it has at most 10 labels unless the mode [all] applies. *)
Theorem forwardRuleset_selection given :
  effectiveN (forwardRuleset given)
  = (if decide ((given ≫= multiSelect) ≫= n = Some 0) then 2 else effectiveN given)
  ∧ multiSelectMode (forwardRuleset given) = multiSelectMode given
  ∧ (rulesetSchema given = true →
     1 ≤ effectiveN (forwardRuleset given) ≤ 10
     ∧ ∀ s strategy runId,
         deterministicSelection s strategy (forwardRuleset given) runId
         = deterministicSelection s strategy given runId
         ∧ (¬ (strategy = StrategyRuleset ∧ inputType s = MultiSelect
               ∧ multiSelectMode given = All) →
            (length (deterministicSelection s strategy (forwardRuleset given) runId)
             ≤ 10)%nat)).
Proof.
  assert (effectiveN (forwardRuleset given)
          = (if decide ((given ≫= multiSelect) ≫= n = Some 0) then 2 else effectiveN given))
    as Hcount.
  { destruct given as [[single [[md [count|]]|] txt]|]; try reflexivity.
    unfold effectiveN. cbn. destruct (decide (count = 0)) as [->|Hcount]; [done|].
    destruct (decide (Some count = Some 0)); [congruence|done]. }
  assert (multiSelectMode (forwardRuleset given) = multiSelectMode given) as Hmode.
  { by destruct given as [[single [m|] txt]|]. }
  assert (forwardRuleset given ≫= singleSelect = given ≫= singleSelect) as Hsingle.
  { by destruct given as [[single m txt]|]. }
  split_and!; [done..|].
  intros Hschema.
  assert (effectiveN (forwardRuleset given) = effectiveN given
          ∧ 1 ≤ effectiveN given ≤ 10) as [Hsame Hrange].
  { rewrite Hcount. unfold rulesetSchema, effectiveN in *.
    destruct ((given ≫= multiSelect) ≫= n) as [count|]; unfold default, from_option, id.
    - apply andb_true_iff in Hschema as [Hlow Hhigh].
      apply Z.leb_le in Hlow, Hhigh.
      destruct (decide (Some count = Some 0)) as [[= ->]|_]; lia.
    - destruct (decide (None = Some 0)); [done|lia]. }
  split; [lia|]. intros s strategy runId.
  rewrite (deterministicSelection_ruleset_ext s strategy (forwardRuleset given) given runId)
    by done.
  split; [done|]. intros Hnotall.
  pose proof (deterministicSelection_length s strategy given runId Hnotall). lia.
Qed.

Lemma forwardRuleset_selection_witness :
  deterministicSelection elevenOptions StrategyRuleset
    (forwardRuleset (multiRuleset RandomN (Some 3))) (js "run-1")
  = deterministicSelection elevenOptions StrategyRuleset (multiRuleset RandomN (Some 3))
      (js "run-1").
Proof.
  destruct (forwardRuleset_selection (multiRuleset RandomN (Some 3))) as (_ & _ & Hschema).
  destruct (Hschema eq_refl) as [_ Hsame].
  apply Hsame.
Defined.

Section RunnerProperties.

Variable toLowerCase : jsstring → jsstring.
Variable hostnameOf : jsstring → option jsstring.

(** The text typed for a ruleset that reaches the engine through the
    runner is the one the request's ruleset gives, except that an empty
    [text.default] is dropped on the way: where the engine alone would type
    the empty default, the fallback text (["AUTO_TEST_RESPONSE"] when there
    is none) is typed.  Through the runner the empty string is only typed as
    the value of a matching keyword, or as an empty fallback. *)
Theorem forwardRuleset_text given s fallback :
  let direct := chooseTextByRuleset toLowerCase s given fallback in
  let forwarded := chooseTextByRuleset toLowerCase s (forwardRuleset given) fallback in
  ((given ≫= text) ≫= default_ ≠ Some [] → forwarded = direct)
  ∧ (forwarded = direct
     ∨ direct = [] ∧ forwarded = default (js "AUTO_TEST_RESPONSE") fallback)
  ∧ (forwarded = [] →
     fallback = Some []
     ∨ ∃ key, (key, []) ∈ default [] ((given ≫= text) ≫= byKeyword)).
Proof.
  cbn zeta. unfold chooseTextByRuleset. cbn zeta.
  assert ((forwardRuleset given ≫= text) ≫= byKeyword = (given ≫= text) ≫= byKeyword)
    as ->.
  { by destruct given as [[single m [t|]]|]. }
  assert ((forwardRuleset given ≫= text) ≫= default_
          = ((given ≫= text) ≫= default_) ≫= (λ d, if truthy d then Some d else None))
    as ->.
  { by destruct given as [[single m [t|]]|]. }
  set (entries := default [] ((given ≫= text) ≫= byKeyword)).
  destruct (List.find _ entries) as [[key value]|] eqn:Hfind;
    cbn [fmap option_fmap option_map default from_option id snd].
  - split_and!; [done|by left|]. intros ->. right. exists key.
    apply List.find_some in Hfind as [Hin _]. by apply list_elem_of_In.
  - destruct ((given ≫= text) ≫= default_) as [[|c d]|]; cbn.
    + split_and!; [done|by right|].
      destruct fallback as [[|c d]|]; [by left|done|done].
    + split_and!; [done|by left|done].
    + split_and!; [done|by left|].
      destruct fallback as [[|c d]|]; [by left|done|done].
Qed.

(** The step limit of a run started by the runner: a [maxSteps] of 0 is
    dropped on the way and gives the default of 40 steps.  For a request
    that the schema accepts the limit is the requested one, and the report
    has at most 100 steps (at most 40 when the request names no limit). *)
Theorem startRun_step_limit newRunId dir input world :
  let run := startRunInput newRunId dir input in
  let final := runSurvey toLowerCase hostnameOf run world in
  default 40 (maxSteps run)
  = match requestMaxSteps input with
    | Some limit => if decide (limit = 0) then 40 else limit
    | None => 40
    end
  ∧ (runRequestSchema input = true →
     maxSteps run = requestMaxSteps input
     ∧ (length (steps final) ≤ 100)%nat
     ∧ (requestMaxSteps input = None → (length (steps final) ≤ 40)%nat)).
Proof.
  cbn zeta.
  destruct (runSurvey_bounded toLowerCase hostnameOf (startRunInput newRunId dir input) world)
    as [Hbound _].
  revert Hbound. cbn [startRunInput maxSteps]. intros Hbound. split.
  - destruct (requestMaxSteps input) as [limit|]; [|done].
    cbn. by destruct (decide (limit = 0)).
  - unfold runRequestSchema. intros [_ Hlimit]%andb_true_iff.
    destruct (requestMaxSteps input) as [limit|]; cbn in *.
    + apply andb_true_iff in Hlimit as [Hlow Hhigh]. apply Z.leb_le in Hlow, Hhigh.
      destruct (decide (limit = 0)); [lia|]. cbn in Hbound.
      split_and!; [done|lia|done].
    + split_and!; [done|lia|intros _; lia].
Qed.

End RunnerProperties.

Lemma forwardRuleset_text_witness :
  chooseTextByRuleset foldAscii emailState (forwardRuleset emailRuleset) None
  = chooseTextByRuleset foldAscii emailState emailRuleset None.
Proof.
  destruct (forwardRuleset_text foldAscii emailRuleset emailState None) as (Hsame & _).
  apply Hsame. discriminate.
Defined.

Lemma startRun_step_limit_witness :
  (length (steps (runSurvey foldAscii httpsHostname
                    (startRunInput (js "run-1") (js "artifacts/run-1")
                       (sampleRequest None (Some 5%Z)))
                    (stuckWorld selectDecision))) ≤ 100)%nat.
Proof.
  destruct (startRun_step_limit foldAscii httpsHostname (js "run-1") (js "artifacts/run-1")
              (sampleRequest None (Some 5%Z)) (stuckWorld selectDecision)) as [_ Hschema].
  destruct (Hschema eq_refl) as (_ & Hbound & _).
  exact Hbound.
Defined.

(** ** The sheet *)

Lemma trimStart_head s c rest : trimStart s = c :: rest → isSpace c = false.
Proof.
  induction s as [|d s IH]; [done|]. cbn [trimStart].
  destruct (isSpace d) eqn:Hd; [done|]. by intros [= <- _].
Qed.

Lemma trimStart_fixed s :
  (∀ c rest, s = c :: rest → isSpace c = false) → trimStart s = s.
Proof.
  destruct s as [|c s]; [done|]. intros Hhead. cbn [trimStart].
  by rewrite (Hhead c s eq_refl).
Qed.

Lemma trimStart_suffix s : ∃ spaces, s = spaces ++ trimStart s.
Proof.
  induction s as [|c s [spaces IH]]; [by exists []|]. cbn [trimStart].
  destruct (isSpace c); [|by exists []].
  exists (c :: spaces). cbn [app]. by rewrite <- IH.
Qed.

(** [trim] leaves nothing to trim. *)
Lemma trim_trim s : trim (trim s) = trim s.
Proof.
  unfold trim. set (front := trimStart s). set (back := trimStart (rev front)).
  assert (trimStart (rev back) = rev back) as ->.
  { apply trimStart_fixed. intros c rest Hrev.
    destruct (trimStart_suffix (rev front)) as [spaces Hspaces]. fold back in Hspaces.
    assert (front = c :: rest ++ rev spaces) as Hfront.
    { rewrite <- (rev_involutive front), Hspaces, rev_app_distr, Hrev. done. }
    exact (trimStart_head s c _ Hfront). }
  rewrite rev_involutive. f_equal. apply trimStart_fixed. intros c rest Hback.
  exact (trimStart_head (rev front) c rest Hback).
Qed.

Lemma snoc_split {A} (rows : list A) last earlier row later :
  rows ++ [last] = earlier ++ row :: later ↔
  (later = [] ∧ row = last ∧ earlier = rows)
  ∨ ∃ later', later = later' ++ [last] ∧ rows = earlier ++ row :: later'.
Proof.
  split.
  - intros Hsplit. destruct later as [|x later _] using rev_ind.
    + left. apply (app_inj_tail rows earlier) in Hsplit as [-> ->]. done.
    + right. exists later.
      change (rows ++ [last] = earlier ++ (row :: later) ++ [x]) in Hsplit.
      rewrite app_assoc in Hsplit. apply app_inj_tail in Hsplit as [-> ->]. done.
  - intros [(-> & -> & ->)|(later' & -> & ->)]; [done|]. by rewrite <- app_assoc.
Qed.

(** The entries of the sheet.  A key has the value of the last row whose
    first cell, trimmed, is that key: the second cell, trimmed, or the empty
    string when the row has one cell only.  Rows without a first cell or
    with a blank one leave no entry, and neither does the key [__proto__].
    Keys and values carry no white space at either end. *)
Theorem toKeyValue_lookup rows key value :
  (toKeyValue rows !! key = Some value ↔
   key ≠ [] ∧ key ≠ js "__proto__"
   ∧ ∃ earlier row later,
       rows = earlier ++ row :: later
       ∧ trim <$> row !! 0%nat = Some key
       ∧ value = default [] (trim <$> row !! 1%nat)
       ∧ Forall (λ other, trim <$> other !! 0%nat ≠ Some key) later)
  ∧ (toKeyValue rows !! key = Some value → trim key = key ∧ trim value = value).
Proof.
  assert (toKeyValue rows !! key = Some value ↔
          key ≠ [] ∧ key ≠ js "__proto__"
          ∧ ∃ earlier row later,
              rows = earlier ++ row :: later
              ∧ trim <$> row !! 0%nat = Some key
              ∧ value = default [] (trim <$> row !! 1%nat)
              ∧ Forall (λ other, trim <$> other !! 0%nat ≠ Some key) later) as Hlookup.
  { revert value. induction rows as [|last rows IH] using rev_ind; intros value.
    - unfold toKeyValue. cbn [foldl]. rewrite lookup_empty. split; [done|].
      intros (_ & _ & earlier & row & later & Hrows & _). by destruct earlier.
    - assert (toKeyValue (rows ++ [last]) !! key
              = if decide (trim <$> last !! 0%nat = Some key ∧ key ≠ [] ∧ key ≠ js "__proto__")
                then Some (default [] (trim <$> last !! 1%nat))
                else toKeyValue rows !! key) as ->.
      { unfold toKeyValue. rewrite foldl_app. cbn [foldl]. fold (toKeyValue rows).
        destruct (trim <$> last !! 0%nat) as [cell|] eqn:Hcell.
        - destruct cell as [|c cell]; cbn [truthy].
          + destruct (decide _) as [([= <-] & Hne & _)|_]; done.
          + unfold assign. destruct (decide (c :: cell = js "__proto__")) as [Hproto|Hproto].
            * destruct (decide _) as [([= <-] & _ & Hne)|_]; done.
            * destruct (decide _) as [([= <-] & _ & _)|Hother].
              -- by rewrite lookup_insert_eq.
              -- rewrite lookup_insert_ne; [done|]. intros <-. by destruct Hother.
        - destruct (decide _) as [(Hsome & _)|_]; done. }
      destruct (decide _) as [(Hkey & Hne & Hproto)|Hother].
      + split.
        * intros [= <-]. split_and!; [done..|].
          exists rows, last, []. by split_and!.
        * intros (_ & _ & earlier & row & later & Hrows & Hrow & -> & Hlater).
          apply snoc_split in Hrows as [(-> & -> & ->)|(later' & -> & ->)]; [done|].
          apply Forall_app in Hlater as [_ Hlast]. apply Forall_inv in Hlast. destruct (Hlast Hkey).
      + rewrite IH. split.
        * intros (Hne & Hproto & earlier & row & later & -> & Hrow & -> & Hlater).
          split_and!; [done..|].
          exists earlier, row, (later ++ [last]). rewrite <- app_assoc.
          split_and!; [done..|]. apply Forall_app. split; [done|].
          apply Forall_singleton. intros Hlast. destruct Hother. by split_and!.
        * intros (Hne & Hproto & earlier & row & later & Hrows & Hrow & -> & Hlater).
          split_and!; [done..|].
          apply snoc_split in Hrows as [(-> & -> & ->)|(later' & -> & ->)].
          { destruct Hother. by split_and!. }
          apply Forall_app in Hlater as [Hlater _].
          exists earlier, row, later'. by split_and!. }
  split; [exact Hlookup|].
  intros (_ & _ & earlier & row & later & _ & Hrow & -> & _)%Hlookup. split.
  - destruct (row !! 0%nat) as [cell|]; [|done]. injection Hrow as <-. apply trim_trim.
  - destruct (row !! 1%nat) as [cell|]; [apply trim_trim|done].
Qed.

Lemma toKeyValue_lookup_witness :
  toKeyValue sampleRows !! js "name" = Some (js "Grace")
  ∧ trim (js "Grace") = js "Grace".
Proof.
  destruct (toKeyValue_lookup sampleRows (js "name") (js "Grace")) as [Hlookup Htrimmed].
  assert (toKeyValue sampleRows !! js "name" = Some (js "Grace")) as Hentry.
  { apply Hlookup. split_and!; [discriminate..|].
    exists [ [js " name "; js "Ada"]; [js "city"]; [js ""; js "x"];
             [js "__proto__"; js "y"] ],
           [js "name"; js " Grace "; js "ignored"], [].
    split_and!; [reflexivity|reflexivity|reflexivity|constructor]. }
  split; [exact Hentry|]. exact (proj2 (Htrimmed Hentry)).
Defined.
